(** * The Crowdsignal poll block editor: identifier bookkeeping and
      derived presentation flags

    Shallow embedding of [client/blocks/poll/edit.js] and of the attribute
    schema of [client/blocks/poll/attributes.js].

    - JavaScript values are a small tagged union; [truthy] is ToBoolean.
    - An answer is a plain JS object, modelled as a finite map from
      property names to values, so that the object spread
      [{ ...answer, answerId }] is a map insert.
    - The effect of [withPollAndAnswerIds] runs in a state monad over a
      [world]: the position in the entropy stream consumed by [uuidv4],
      the host's attribute store, and the trace of [setAttributes] calls. *)

From Stdlib Require Import ZArith Ascii Bool Lia.
From stdpp Require Import base option list strings gmap fin_maps.

Open Scope Z_scope.

(** ** JavaScript values *)

Inductive value : Type :=
  | VUndefined
  | VNull
  | VBool (b : bool)
  | VNum (n : Z)
  | VStr (s : string).

#[global] Instance value_eq_dec : EqDecision value.
Proof. solve_decision. Defined.

(** ToBoolean. Numbers are integers here, so the only falsy number is 0. *)
Definition truthy (v : value) : bool :=
  match v with
  | VUndefined | VNull => false
  | VBool b => b
  | VNum n => negb (n =? 0)
  | VStr s => negb (String.eqb s "")
  end.

(** [a || b] returns one of its operands. *)
Definition js_or (a b : value) : value := if truthy a then a else b.

(** [a === b] on primitive values. *)
Definition strict_eq (a b : value) : bool := bool_decide (a = b).

(** The [typeof] tags the attribute schema talks about. *)
Inductive js_type : Type := TNumber | TString | TBoolean | TArray | TObject | TNullish.

Definition type_of (v : value) : js_type :=
  match v with
  | VUndefined | VNull => TNullish
  | VBool _ => TBoolean
  | VNum _ => TNumber
  | VStr _ => TString
  end.

#[global] Instance js_type_eq_dec : EqDecision js_type.
Proof. solve_decision. Defined.

(** A JS object with primitive properties; a missing property reads as
    [undefined]. *)
Abbreviation object := (gmap string value).

Definition get (o : object) (k : string) : value := default VUndefined (o !! k).

Abbreviation answer := (gmap string value) (only parsing).

(** ** The [uuid] package, [v4]

    [uuid] is a third-party package: [v4()] draws 16 random bytes, stamps
    the version and variant bits, and prints them as 8-4-4-4-12 lower-case
    hexadecimal digits.  The bytes come from an arbitrary entropy stream. *)

Definition hex_digit (n : Z) : ascii :=
  nth (Z.to_nat n)
    ["0";"1";"2";"3";"4";"5";"6";"7";"8";"9";"a";"b";"c";"d";"e";"f"]%char
    "0"%char.

Definition byteToHex (b : Z) : string :=
  String (hex_digit (Z.land (Z.shiftr b 4) 15))
    (String (hex_digit (Z.land b 15)) EmptyString).

Definition hex_of (bs : list Z) : string :=
  foldr (fun b acc => byteToHex b +:+ acc) "" bs.

Definition stamp_v4 (rnds : list Z) : list Z :=
  let rnds := alter (fun b => Z.lor (Z.land b 15) 64) 6%nat rnds in
  alter (fun b => Z.lor (Z.land b 63) 128) 8%nat rnds.

Definition stringify (arr : list Z) : string :=
  hex_of (take 4 arr) +:+ "-" +:+
  hex_of (take 2 (drop 4 arr)) +:+ "-" +:+
  hex_of (take 2 (drop 6 arr)) +:+ "-" +:+
  hex_of (take 2 (drop 8 arr)) +:+ "-" +:+
  hex_of (take 6 (drop 10 arr)).

(** ** Attributes, patches and the host store *)

Record attrs : Type := mkAttrs {
  pollId : value;
  question : value;
  note : value;
  answers : list answer;
  pollStatus : value;
  closedPollState : value;
  closedAfterDateTime : value;
}.

(** The partial attribute objects this component hands to
    [setAttributes]: each has exactly one key. *)
Inductive patch : Type :=
  | PatchPollId (v : value)
  | PatchAnswers (l : list answer)
  | PatchQuestion (v : value)
  | PatchNote (v : value).

(** [setAttributes] merges the patch into the stored attributes. *)
Definition merge (p : patch) (a : attrs) : attrs :=
  match p with
  | PatchPollId v =>
      mkAttrs v (question a) (note a) (answers a)
        (pollStatus a) (closedPollState a) (closedAfterDateTime a)
  | PatchAnswers l =>
      mkAttrs (pollId a) (question a) (note a) l
        (pollStatus a) (closedPollState a) (closedAfterDateTime a)
  | PatchQuestion v =>
      mkAttrs (pollId a) v (note a) (answers a)
        (pollStatus a) (closedPollState a) (closedAfterDateTime a)
  | PatchNote v =>
      mkAttrs (pollId a) (question a) v (answers a)
        (pollStatus a) (closedPollState a) (closedAfterDateTime a)
  end.

Record world : Type := mkWorld {
  consumed : nat;
  store : attrs;
  trace : list patch;
}.

(** ** A small state monad for the effect *)

Definition M (A : Type) : Type := world -> A * world.

Definition ret {A} (x : A) : M A := fun w => (x, w).

Definition bind {A B} (m : M A) (k : A -> M B) : M B :=
  fun w => let (x, w') := m w in k x w'.

Notation "'let*' x ':=' m 'in' k" := (bind m (fun x => k))
  (at level 10, x name, m at level 100, k at level 200).
Notation "m '>>' k" := (bind m (fun _ => k))
  (at level 90, right associativity).

Fixpoint mapM {A B} (f : A -> M B) (l : list A) : M (list B) :=
  match l with
  | [] => ret []
  | x :: l' => let* y := f x in let* ys := mapM f l' in ret (y :: ys)
  end.

Definition setAttributes (p : patch) : M unit :=
  fun w => (tt, mkWorld (consumed w) (merge p (store w)) (trace w ++ [p])).

(** ** Host context and API snapshot *)

(** [wp.data.select( 'core/editor' ).getCurrentPost()]: the fields read. *)
Module Post.
Record t : Type := mk { status : value; content : string }.
End Post.

(** One entry of [pollDataFromApi.answers]. *)
Module ApiAnswer.
Record t : Type := mk { client_id : string; id : value }.
End ApiAnswer.

(** [pollDataFromApi] when it is not null. *)
Module PollData.
Record t : Type := mk {
  id : value;
  viewResultsUrl : value;
  answers : list ApiAnswer.t;
}.
End PollData.

(** The members of [ClosedPollState] ([./constants]) that [PollBlock]
    reads. *)
Record ClosedPollStateT : Type := {
  SHOW_RESULTS : string;
  HIDDEN : string;
}.

Section Edit.

(** The entropy stream behind [uuidv4]: byte number [i] ever drawn. *)
Variable entropy : nat -> Z.

Definition rng (pos : nat) : list Z :=
  map (fun i => Z.land (entropy (pos + i)%nat) 255) (seq 0 16).

Definition uuid_at (pos : nat) : string := stringify (stamp_v4 (rng pos)).

Definition uuidv4 : M string :=
  fun w => (uuid_at (consumed w),
            mkWorld (consumed w + 16)%nat (store w) (trace w)).

(** ** [withPollAndAnswerIds] *)

(** The predicate handed to [some]: [! a.answerId && a.text]. *)
Definition needs_id (a : answer) : bool :=
  negb (truthy (get a "answerId")) && truthy (get a "text").

(** The callback handed to [map]. *)
Definition assign_answer_id (ans : answer) : M answer :=
  if truthy (get ans "answerId") || negb (truthy (get ans "text"))
  then ret ans
  else let* answerId := uuidv4 in ret (<["answerId" := VStr answerId]> ans).

(** The body of the [useEffect] callback; [attributes] is the snapshot
    the render closed over, the writes go to the host store. *)
Definition id_effect (attributes : attrs) : M unit :=
  (if negb (truthy (pollId attributes))
   then let* thePollId := uuidv4 in setAttributes (PatchPollId (VStr thePollId))
   else ret tt) >>
  if existsb needs_id (answers attributes)
  then let* answers' := mapM assign_answer_id (answers attributes) in
       setAttributes (PatchAnswers answers')
  else ret tt.

(** One evaluation pass: render with the stored attributes, then run the
    effect. *)
Definition pass (w : world) : world := snd (id_effect (store w) w).

(** Drawing an identifier moves the entropy position only. *)
Definition drawn (w : world) : world :=
  mkWorld (consumed w + 16)%nat (store w) (trace w).

(** What [map] does to the answer at a position: a fresh [answerId] on
    top of the other properties, or the same object. *)
Definition assigned (a a' : answer) : Prop :=
  if needs_id a
  then exists pos, a' = <["answerId" := VStr (uuid_at pos)]> a
  else a' = a.

(** The world after the poll-id half of the effect. *)
Definition after_poll (w : world) : world :=
  if truthy (pollId (store w))
  then w
  else mkWorld (consumed w + 16)%nat
         (merge (PatchPollId (VStr (uuid_at (consumed w)))) (store w))
         (trace w ++ [PatchPollId (VStr (uuid_at (consumed w)))]).

(** ** [PollBlock]: what is read from the API snapshot *)

Definition viewResultsUrl (pollDataFromApi : option PollData.t) : value :=
  match pollDataFromApi with
  | Some d => PollData.viewResultsUrl d
  | None => VStr ""
  end.

Definition pollIdFromApi (pollDataFromApi : option PollData.t) : value :=
  match pollDataFromApi with
  | Some d => PollData.id d
  | None => VNull
  end.

(** A plain object literal [{}] under assignments [o[ k ] = v] of
    primitive values: its own properties, and whether [Object.prototype]
    is still its prototype.  While it is, the key ["__proto__"] is the
    inherited accessor and not a property of the object: assigning a
    primitive other than [null] to it stores nothing, and assigning [null]
    takes the prototype away.  Once the prototype is gone, ["__proto__"]
    is a key like any other.  Any other key is stored as an own property,
    over the value it had. *)
Record plain_object : Type := mkPlain {
  own : gmap string value;
  inherits : bool;
}.

Definition empty_object : plain_object := mkPlain ∅ true.

Definition assign_key (o : plain_object) (k : string) (v : value) : plain_object :=
  if String.eqb k "__proto__" && inherits o
  then match v with
       | VNull => mkPlain (own o) false
       | _ => o
       end
  else mkPlain (<[k := v]> (own o)) (inherits o).

(** [answerIdMap[ answer.client_id ] = answer.id], for each snapshot
    answer in order. *)
Definition assign_entries (o : plain_object) (l : list ApiAnswer.t) : plain_object :=
  foldl (fun o a => assign_key o (ApiAnswer.client_id a) (ApiAnswer.id a)) o l.

(** The own properties of [answerIdMap]: those of [{}] after the
    assignments, or of [{}] itself when there is no poll data. *)
Definition answerIdMap (pollDataFromApi : option PollData.t) : gmap string value :=
  match pollDataFromApi with
  | Some d => own (assign_entries empty_object (PollData.answers d))
  | None => ∅
  end.

(** ** [PollBlock]: derived flags

    [isPollClosed] and [pollIdExistsInPageContent] come from [./util],
    [isAnswerEmpty] and [addApiAnswerIds] from [components/poll/util],
    and the enumerations from [./constants]; here they are variables. *)

Variable isPollClosed : value -> value -> bool.
Variable pollIdExistsInPageContent : value -> string -> bool.
Variable ClosedPollState : ClosedPollStateT.

Definition isClosed (attributes : attrs) : bool :=
  isPollClosed (pollStatus attributes) (closedAfterDateTime attributes).

Definition showNote (attributes : attrs) (isSelected isPollEditable : bool) : value :=
  js_or (note attributes) (VBool (isSelected && isPollEditable)).

Definition showResults (attributes : attrs) : bool :=
  isClosed attributes &&
  strict_eq (VStr (SHOW_RESULTS ClosedPollState)) (closedPollState attributes).

Definition isHidden (attributes : attrs) : bool :=
  isClosed attributes &&
  strict_eq (VStr (HIDDEN ClosedPollState)) (closedPollState attributes).

Definition wasBlockAddedBeforeLastPublish
    (attributes : attrs) (postDetails : Post.t) : bool :=
  strict_eq (VStr "publish") (Post.status postDetails) &&
  pollIdExistsInPageContent (pollId attributes) (Post.content postDetails).

(** ** [PollBlock]: the edit lock

    [useState( true )], then the effect keyed on [isSelected], which
    runs after the first render and after every change of the selection:
    [setIsPollEditable( ! wasBlockAddedBeforeLastPublish )].  The
    edit bar's button calls [setIsPollEditable( true )]. *)

Inductive ui_event : Type :=
  | Mounted
  | SelectionChanged
  | EditClicked.

Definition initial_isPollEditable : bool := true.

Definition ui_step (attributes : attrs) (postDetails : Post.t)
    (isPollEditable : bool) (e : ui_event) : bool :=
  match e with
  | Mounted | SelectionChanged =>
      negb (wasBlockAddedBeforeLastPublish attributes postDetails)
  | EditClicked => true
  end.

(** The editable flag once the block is mounted. *)
Definition isPollEditable_on_mount (attributes : attrs) (postDetails : Post.t) : bool :=
  ui_step attributes postDetails initial_isPollEditable Mounted.

Definition showEditBar (attributes : attrs) (postDetails : Post.t)
    (isSelected isPollEditable : bool) : bool :=
  isSelected && wasBlockAddedBeforeLastPublish attributes postDetails &&
  negb isPollEditable.

(** ** [PollBlock]: the note region of the rendered tree *)

Inductive note_view : Type :=
  | NoteNothing
  | NoteRichText (v : value)
  | NoteParagraph (text : value).

Variable decodeEntities : value -> value.

Definition render_note (attributes : attrs) (isSelected isPollEditable : bool) : note_view :=
  if truthy (showNote attributes isSelected isPollEditable)
  then if isPollEditable
       then NoteRichText (note attributes)
       else NoteParagraph
              (if truthy (note attributes)
               then decodeEntities (note attributes)
               else VStr "Add a note (optional)") (* [__], untranslated *)
  else NoteNothing.

(** ** [PollBlock]: the answers handed to [PollResults] *)

Variable isAnswerEmpty : answer -> bool.
Variable addApiAnswerIds :
  list answer -> gmap string value -> list (answer * option value).

Definition results_answers (attributes : attrs)
    (pollDataFromApi : option PollData.t) : list (answer * option value) :=
  addApiAnswerIds
    (filter (fun a => negb (isAnswerEmpty a) = true) (answers attributes))
    (answerIdMap pollDataFromApi).

End Edit.


(** ** Helpers that are not among the sources *)

(** The members of [PollStatus] ([./constants]). *)
Record PollStatusT : Type := {
  OPEN : string;
  CLOSED : string;
}.

(** Modelled from the spec: [isPollClosed] of [./util] is missing.  The
    poll is closed if its status is explicitly closed, or a closed-after
    timestamp is set and is not in the future; the timestamp is optional
    and compared against the current time [now]. *)
Definition isPollClosed_spec (PollStatus : PollStatusT) (now : Z)
    (status : value) (closedAfter : option Z) : bool :=
  strict_eq status (VStr (CLOSED PollStatus)) ||
  match closedAfter with
  | Some t => t <=? now
  | None => false
  end.

Fixpoint is_prefix (p s : string) : bool :=
  match p, s with
  | EmptyString, _ => true
  | String a p', String b s' => Ascii.eqb a b && is_prefix p' s'
  | String _ _, EmptyString => false
  end.

Fixpoint includes (needle hay : string) : bool :=
  is_prefix needle hay ||
  match hay with
  | EmptyString => false
  | String _ hay' => includes needle hay'
  end.

(** Modelled from the spec: [pollIdExistsInPageContent] of [./util] is
    missing.  It is a substring search for the poll's identifier string
    within the raw content, not a structural parse. *)
Definition pollIdExistsInPageContent_spec (pollId : value) (content : string) : bool :=
  match pollId with
  | VStr s => includes s content
  | _ => false
  end.

(** Modelled from the spec: [addApiAnswerIds] of [components/poll/util]
    is missing.  A local answer whose [answerId] is a [client_id] of the
    correlation map receives the id mapped to it; any other answer
    receives no mapped id.  The answers keep their order. *)
Definition addApiAnswerIds_spec (answers : list answer)
    (answerIdMap : gmap string value) : list (answer * option value) :=
  map (fun a => (a, match get a "answerId" with
                    | VStr c => answerIdMap !! c
                    | _ => None
                    end)) answers.

(** ** The attribute schema ([attributes.js]) *)

(** [type] of each top-level attribute. *)
Definition schema_type (field : string) : option js_type :=
  if String.eqb field "pollId" then Some TNumber
  else if String.eqb field "isMultipleChoice" then Some TBoolean
  else if String.eqb field "title" then Some TString
  else if String.eqb field "question" then Some TString
  else if String.eqb field "note" then Some TString
  else if String.eqb field "answers" then Some TArray
  else if String.eqb field "submitButtonLabel" then Some TString
  else if String.eqb field "submitButtonTextColor" then Some TString
  else if String.eqb field "submitButtonBackgroundColor" then Some TString
  else if String.eqb field "confirmMessageType" then Some TString
  else if String.eqb field "customConfirmMessage" then Some TString
  else if String.eqb field "redirectAddress" then Some TString
  else if String.eqb field "textColor" then Some TString
  else if String.eqb field "backgroundColor" then Some TString
  else if String.eqb field "borderColor" then Some TString
  else if String.eqb field "borderWidth" then Some TNumber
  else if String.eqb field "borderRadius" then Some TNumber
  else if String.eqb field "hasBoxShadow" then Some TBoolean
  else if String.eqb field "fontFamily" then Some TString
  else if String.eqb field "hasOneResponsePerComputer" then Some TBoolean
  else if String.eqb field "randomizeAnswers" then Some TBoolean
  else if String.eqb field "blockAlignment" then Some TString
  else if String.eqb field "pollStatus" then Some TString
  else if String.eqb field "closedPollState" then Some TString
  else if String.eqb field "closedAfterDateTime" then Some TString
  else None.

(** [answers.items.properties]. *)
Definition answer_schema_type (prop : string) : option js_type :=
  if String.eqb prop "answerId" then Some TNumber
  else if String.eqb prop "text" then Some TString
  else None.

(** A value conforms to a declared type if it has that type; a missing
    or null value stands for the default and conforms to any type. *)
Definition conforms (declared : option js_type) (v : value) : bool :=
  match declared with
  | Some t => bool_decide (type_of v = TNullish) || bool_decide (type_of v = t)
  | None => false
  end.

Definition answer_conforms (a : answer) : bool :=
  conforms (answer_schema_type "answerId") (get a "answerId") &&
  conforms (answer_schema_type "text") (get a "text").

(** Every value of a patch against the declared type of its field. *)
Definition patch_conforms (p : patch) : bool :=
  match p with
  | PatchPollId v => conforms (schema_type "pollId") v
  | PatchAnswers l =>
      bool_decide (schema_type "answers" = Some TArray) && forallb answer_conforms l
  | PatchQuestion v => conforms (schema_type "question") v
  | PatchNote v => conforms (schema_type "note") v
  end.

(** ** Sample inputs *)

Module Sample.

Definition entropy (n : nat) : Z := Z.of_nat n * 37 + 5.

Definition PollStatus : PollStatusT := {| OPEN := "open"; CLOSED := "closed" |}.

Definition ClosedPollState : ClosedPollStateT :=
  {| SHOW_RESULTS := "show-results"; HIDDEN := "hidden" |}.

(** [{ text: 'Yes' }], [{}] and an answer whose text was cleared after
    it got its id. *)
Definition yes : gmap string value := {[ "text" := VStr "Yes" ]}.
Definition blank : gmap string value := ∅.
Definition cleared : gmap string value :=
  <["text" := VStr ""]> {[ "answerId" := VStr "k" ]}.
Definition voted : gmap string value :=
  <["text" := VStr "No"]> {[ "answerId" := VStr "a" ]}.

(** A block just inserted (the schema defaults) in which the first
    answer has been typed. *)
Definition fresh_block : attrs :=
  mkAttrs VNull (VStr "") (VStr "") [yes; blank; blank]
    (VStr "open") (VStr "show-results") VNull.

Definition mixed_block : attrs :=
  mkAttrs VNull (VStr "") (VStr "") [yes; blank; cleared; voted]
    (VStr "open") (VStr "show-results") VNull.

Definition hidden_block : attrs :=
  mkAttrs (VStr "abc") (VStr "Q?") (VStr "a note") [voted]
    (VStr "closed") (VStr "hidden") VNull.

Definition w_fresh : world := mkWorld 0 fresh_block [].
Definition w_mixed : world := mkWorld 0 mixed_block [].

Definition content : string := "<!-- wp:crowdsignal-forms/poll {pollId:abc} /-->".

Definition post_publish : Post.t := Post.mk (VStr "publish") content.
Definition post_published : Post.t := Post.mk (VStr "published") content.
Definition post_draft : Post.t := Post.mk (VStr "draft") content.

(** The spec's snapshot. *)
Definition snapshot : PollData.t :=
  PollData.mk (VNum 11) (VStr "https://example.org/results")
    [ApiAnswer.mk "a" (VNum 7)].

Definition never_empty (a : gmap string value) : bool := false.

End Sample.

(** ** The rest of [edit.js] *)

(** [handleChangeQuestion] and [handleChangeNote]: one-key patches. *)
Definition handleChangeQuestion (question : value) : M unit :=
  setAttributes (PatchQuestion question).

Definition handleChangeNote (note : value) : M unit :=
  setAttributes (PatchNote note).

(** The [withSelect] mapping at the bottom of the file: the data layer
    is queried by [attributes.pollId], and only if there is one.
    [getPollDataByClientId] is the selector of the
    ['crowdsignal-forms/polls'] store; it answers null while the poll is
    not there. *)
Definition select_pollDataFromApi
    (getPollDataByClientId : value -> option PollData.t)
    (attributes : attrs) : option PollData.t :=
  if truthy (pollId attributes)
  then getPollDataByClientId (pollId attributes)
  else None.

(** The [map] of [withPollAndAnswerIds] as a function of the position in
    the entropy stream: the answers after the [map] and the position
    reached. *)
Fixpoint assign_from (entropy : nat -> Z) (pos : nat) (l : list answer)
    : list answer * nat :=
  match l with
  | [] => ([], pos)
  | a :: l' =>
      if needs_id a
      then let (r, pos') := assign_from entropy (pos + 16)%nat l' in
           (<["answerId" := VStr (uuid_at entropy pos)]> a :: r, pos')
      else let (r, pos') := assign_from entropy pos l' in (a :: r, pos')
  end.

(** How many answers the [map] gives an id to. *)
Definition count_needs (l : list answer) : nat :=
  length (List.filter needs_id l).

(** Where the [map] starts drawing: after the poll id, if one was
    drawn. *)
Definition answers_base (w : world) : nat :=
  if truthy (pollId (store w)) then consumed w else (consumed w + 16)%nat.

(** The patches one pass hands to [setAttributes], in order. *)
Definition pass_writes (entropy : nat -> Z) (w : world) : list patch :=
  (if truthy (pollId (store w)) then []
   else [PatchPollId (VStr (uuid_at entropy (consumed w)))]) ++
  (if existsb needs_id (answers (store w))
   then [PatchAnswers
           (fst (assign_from entropy (answers_base w) (answers (store w))))]
   else []).

(** A session of the edit lock: the events in order, each with the
    attributes and the document the render saw. *)
Definition ui_run (pollIdExistsInPageContent : value -> string -> bool)
    (events : list (attrs * Post.t * ui_event)) : bool :=
  foldl (fun isPollEditable '(attributes, postDetails, e) =>
           ui_step pollIdExistsInPageContent attributes postDetails
             isPollEditable e)
    initial_isPollEditable events.

(** ** The tree [PollBlock] returns *)

Inductive question_view : Type :=
  | QuestionRichText (v : value)
  | QuestionHeading (text : value).

(** The props of [PollResults]. *)
Record results_props : Type := mkResultsProps {
  rp_answers : list (answer * option value);
  rp_pollIdFromApi : value;
  rp_hideBranding : bool;
}.

(** The children of the tree that depend on the state; a child that is
    not rendered is [None] (or [false] for the edit bar, which has no
    props of interest). *)
Record view : Type := mkView {
  sidebar_viewResultsUrl : value;
  class_is_selected_in_editor : bool;
  class_is_closed : bool;
  class_is_hidden : bool;
  editBar : bool;
  errorBanner : option value;
  question_region : question_view;
  note_region : note_view;
  editAnswers_disabled : option bool;
  pollResults : option results_props;
  closedBanner : option (bool * bool);
}.

Section Render.

Variable isPollClosed : value -> value -> bool.
Variable pollIdExistsInPageContent : value -> string -> bool.
Variable ClosedPollState : ClosedPollStateT.
Variable decodeEntities : value -> value.
Variable isAnswerEmpty : answer -> bool.
Variable addApiAnswerIds :
  list answer -> gmap string value -> list (answer * option value).

(** The body of [PollBlock] from the derived flags to the returned
    tree; [isPollEditable] and [errorMessage] are the two pieces of
    [useState]. *)
Definition PollBlock (attributes : attrs) (isSelected : bool)
    (pollDataFromApi : option PollData.t) (postDetails : Post.t)
    (isPollEditable : bool) (errorMessage : value) : view :=
  let isClosed := isClosed isPollClosed attributes in
  let showResults := showResults isPollClosed ClosedPollState attributes in
  let isHidden := isHidden isPollClosed ClosedPollState attributes in
  let hideBranding := true in
  {| sidebar_viewResultsUrl := viewResultsUrl pollDataFromApi;
     class_is_selected_in_editor := isSelected;
     class_is_closed := isClosed;
     class_is_hidden := isHidden;
     editBar := showEditBar pollIdExistsInPageContent attributes postDetails
                  isSelected isPollEditable;
     errorBanner := if truthy errorMessage then Some errorMessage else None;
     question_region :=
       if isPollEditable
       then QuestionRichText (question attributes)
       else QuestionHeading
              (if truthy (question attributes)
               then decodeEntities (question attributes)
               else VStr "Enter your question"); (* [__], untranslated *)
     note_region := render_note decodeEntities attributes isSelected isPollEditable;
     editAnswers_disabled :=
       if negb showResults then Some (negb isPollEditable) else None;
     pollResults :=
       if showResults
       then Some (mkResultsProps
                    (results_answers isAnswerEmpty addApiAnswerIds
                       attributes pollDataFromApi)
                    (pollIdFromApi pollDataFromApi)
                    hideBranding)
       else None;
     closedBanner := if isClosed then Some (isHidden, isClosed) else None |}.

End Render.

(** ** The defaults of the schema ([attributes.js]) *)

(** A [default:] of the schema: a primitive value, or the array of
    answers. *)
Inductive default_value : Type :=
  | DefaultValue (v : value)
  | DefaultAnswers (l : list answer).

Section Defaults.

(** [__] of [lib/i18n], and the members of [./constants] the schema
    takes its defaults from. *)
Variable translate : string -> string.
Variable ConfirmMessageType_RESULTS : value.
Variable FontFamilyType_THEME_DEFAULT : value.
Variable PollStatus : PollStatusT.
Variable ClosedPollState : ClosedPollStateT.

(** [default] of each top-level attribute; [None] for an attribute
    declared without one. *)
Definition schema_default (field : string) : option default_value :=
  if String.eqb field "pollId" then Some (DefaultValue VNull)
  else if String.eqb field "isMultipleChoice" then Some (DefaultValue (VBool false))
  else if String.eqb field "title"
       then Some (DefaultValue (VStr (translate "Untitled Poll")))
  else if String.eqb field "question" then Some (DefaultValue (VStr ""))
  else if String.eqb field "note" then Some (DefaultValue (VStr ""))
  else if String.eqb field "answers" then Some (DefaultAnswers [∅; ∅; ∅])
  else if String.eqb field "submitButtonLabel"
       then Some (DefaultValue (VStr (translate "Submit")))
  else if String.eqb field "confirmMessageType"
       then Some (DefaultValue ConfirmMessageType_RESULTS)
  else if String.eqb field "borderWidth" then Some (DefaultValue (VNum 2))
  else if String.eqb field "borderRadius" then Some (DefaultValue (VNum 0))
  else if String.eqb field "hasBoxShadow" then Some (DefaultValue (VBool true))
  else if String.eqb field "fontFamily"
       then Some (DefaultValue FontFamilyType_THEME_DEFAULT)
  else if String.eqb field "hasOneResponsePerComputer"
       then Some (DefaultValue (VBool false))
  else if String.eqb field "randomizeAnswers" then Some (DefaultValue (VBool false))
  else if String.eqb field "blockAlignment" then Some (DefaultValue (VStr "center"))
  else if String.eqb field "pollStatus"
       then Some (DefaultValue (VStr (OPEN PollStatus)))
  else if String.eqb field "closedPollState"
       then Some (DefaultValue (VStr (SHOW_RESULTS ClosedPollState)))
  else if String.eqb field "closedAfterDateTime" then Some (DefaultValue VNull)
  else None.

(** The attributes of a block just inserted, for the fields [attrs]
    keeps. *)
Definition default_attrs : attrs :=
  mkAttrs VNull (VStr "") (VStr "") [∅; ∅; ∅]
    (VStr (OPEN PollStatus)) (VStr (SHOW_RESULTS ClosedPollState)) VNull.

End Defaults.

(** [default] of [answers.items.properties]. *)
Definition answer_schema_default (prop : string) : option value :=
  if String.eqb prop "answerId" then Some VNull
  else if String.eqb prop "text" then Some (VStr "")
  else None.

(** A default against the declared type of its field. *)
Definition default_conforms (field : string) (d : default_value) : bool :=
  match d with
  | DefaultValue v => conforms (schema_type field) v
  | DefaultAnswers l =>
      bool_decide (schema_type field = Some TArray) && forallb answer_conforms l
  end.

(** ** More sample inputs *)

Module Sample2.

Definition maybe : gmap string value := {[ "text" := VStr "Maybe" ]}.

(** A block with its poll id and two answers typed since the last
    pass. *)
Definition two_gaps : attrs :=
  mkAttrs (VStr "abc") (VStr "Q?") (VStr "") [Sample.yes; Sample.blank; maybe]
    (VStr "open") (VStr "show-results") VNull.

Definition w_two_gaps : world := mkWorld 32 two_gaps [].

Definition w_settled : world := mkWorld 0 Sample.hidden_block [].

Definition snapshot_distinct : PollData.t :=
  PollData.mk (VNum 11) (VStr "https://example.org/results")
    [ApiAnswer.mk "__proto__" (VNum 5); ApiAnswer.mk "a" (VNum 7);
     ApiAnswer.mk "b" (VNum 9)].





(** Mounting in a draft, "edit anyway", then a change of selection. *)
Definition draft_session : list (attrs * Post.t * ui_event) :=
  [(Sample.hidden_block, Sample.post_draft, Mounted);
   (Sample.hidden_block, Sample.post_draft, EditClicked);
   (Sample.hidden_block, Sample.post_draft, SelectionChanged)].

Definition always_closed (status closedAfter : value) : bool := true.

Definition no_decoding (v : value) : value := v.

End Sample2.

(** * Properties *)

(** ** The generated identifiers *)

Lemma string_app_length (s t : string) :
  String.length (s +:+ t) = (String.length s + String.length t)%nat.
Proof. induction s as [|c s IH]; simpl; [reflexivity | now rewrite IH]. Qed.

Lemma hex_of_cons (b : Z) (bs : list Z) :
  hex_of (b :: bs) = byteToHex b +:+ hex_of bs.
Proof. reflexivity. Qed.

Lemma hex_of_length (bs : list Z) :
  String.length (hex_of bs) = (2 * length bs)%nat.
Proof.
  induction bs as [|b bs IH]; [reflexivity|].
  rewrite hex_of_cons, string_app_length, IH. simpl. lia.
Qed.

Lemma stamp_v4_length (rnds : list Z) : length (stamp_v4 rnds) = length rnds.
Proof. unfold stamp_v4. now rewrite !length_alter. Qed.

Lemma stringify_length (arr : list Z) :
  length arr = 16%nat -> String.length (stringify arr) = 36%nat.
Proof.
  intros Hlen. unfold stringify.
  rewrite !string_app_length, !hex_of_length, !length_take, !length_drop, Hlen.
  reflexivity.
Qed.

Section Identifiers.

Variable entropy : nat -> Z.

Lemma rng_length (pos : nat) : length (rng entropy pos) = 16%nat.
Proof. unfold rng. now rewrite length_map, length_seq. Qed.

Lemma uuid_at_length (pos : nat) : String.length (uuid_at entropy pos) = 36%nat.
Proof.
  unfold uuid_at. apply stringify_length.
  now rewrite stamp_v4_length, rng_length.
Qed.

Lemma uuid_at_nonempty (pos : nat) : uuid_at entropy pos <> "".
Proof.
  intros H. pose proof (uuid_at_length pos) as Hl. rewrite H in Hl. discriminate.
Qed.

Lemma uuid_at_truthy (pos : nat) : truthy (VStr (uuid_at entropy pos)) = true.
Proof.
  unfold truthy. apply negb_true_iff, String.eqb_neq, uuid_at_nonempty.
Qed.

End Identifiers.

(** ** The identifier pass *)

Lemma get_insert_eq (o : gmap string value) (k : string) (v : value) :
  get (<[k := v]> o) k = v.
Proof. unfold get. now rewrite lookup_insert_eq. Qed.

Lemma get_insert_ne (o : gmap string value) (k k' : string) (v : value) :
  k <> k' -> get (<[k := v]> o) k' = get o k'.
Proof. intros Hne. unfold get. now rewrite lookup_insert_ne. Qed.

Section Pass.

Variable entropy : nat -> Z.

Local Abbreviation assign := (assign_answer_id entropy).
Local Abbreviation fresh := (uuid_at entropy).

Lemma assign_settled (a : gmap string value) (w : world) :
  needs_id a = false -> assign a w = (a, w).
Proof.
  unfold needs_id, assign_answer_id. intros H.
  destruct (truthy (get a "answerId")), (truthy (get a "text"));
    simpl in *; try reflexivity; discriminate.
Qed.

Lemma assign_needed (a : gmap string value) (w : world) :
  needs_id a = true ->
  assign a w = (<["answerId" := VStr (fresh (consumed w))]> a, drawn w).
Proof.
  unfold needs_id, assign_answer_id. intros H.
  destruct (truthy (get a "answerId")), (truthy (get a "text"));
    simpl in *; try discriminate; reflexivity.
Qed.

Lemma needs_id_fresh (a : gmap string value) (pos : nat) :
  needs_id (<["answerId" := VStr (fresh pos)]> a) = false.
Proof.
  unfold needs_id. rewrite get_insert_eq, uuid_at_truthy. reflexivity.
Qed.

Lemma assign_frame (a : gmap string value) (w : world) :
  store (snd (assign a w)) = store w /\ trace (snd (assign a w)) = trace w.
Proof.
  destruct (needs_id a) eqn:E.
  - rewrite assign_needed by assumption. now split.
  - rewrite assign_settled by assumption. now split.
Qed.

Lemma mapM_cons {A B} (f : A -> M B) (x : A) (l : list A) (w : world) :
  mapM f (x :: l) w =
  (fst (f x w) :: fst (mapM f l (snd (f x w))), snd (mapM f l (snd (f x w)))).
Proof.
  simpl. unfold bind, ret.
  destruct (f x w) as [y w1]. simpl.
  destruct (mapM f l w1) as [ys w2]. reflexivity.
Qed.

Lemma mapM_assign_frame (l : list (gmap string value)) (w : world) :
  store (snd (mapM assign l w)) = store w /\
  trace (snd (mapM assign l w)) = trace w.
Proof.
  revert w. induction l as [|a l IH]; intros w; [now split|].
  rewrite mapM_cons. simpl.
  destruct (IH (snd (assign a w))) as [Hs Ht].
  destruct (assign_frame a w) as [Hs' Ht'].
  split; congruence.
Qed.

Lemma mapM_assign_length (l : list (gmap string value)) (w : world) :
  length (fst (mapM assign l w)) = length l.
Proof.
  revert w. induction l as [|a l IH]; intros w; [reflexivity|].
  rewrite mapM_cons. simpl. now rewrite IH.
Qed.

(** With nothing to assign, [map] returns the answers as they are and
    draws nothing. *)
Lemma mapM_assign_none (l : list (gmap string value)) (w : world) :
  existsb needs_id l = false -> mapM assign l w = (l, w).
Proof.
  revert w. induction l as [|a l IH]; intros w H; [reflexivity|].
  simpl in H. apply orb_false_iff in H as [Ha Hl].
  rewrite mapM_cons, assign_settled by assumption. simpl.
  now rewrite IH.
Qed.

(** After [map], no answer is left for a second [map]. *)
Lemma mapM_assign_settles (l : list (gmap string value)) (w : world) :
  existsb needs_id (fst (mapM assign l w)) = false.
Proof.
  revert w. induction l as [|a l IH]; intros w; [reflexivity|].
  rewrite mapM_cons. simpl. rewrite IH, orb_false_r.
  destruct (needs_id a) eqn:E.
  - rewrite assign_needed by assumption. apply needs_id_fresh.
  - now rewrite assign_settled.
Qed.

Lemma mapM_assign_pointwise (l : list (gmap string value)) (w : world) :
  Forall2 (assigned entropy) l (fst (mapM assign l w)).
Proof.
  revert w. induction l as [|a l IH]; intros w; [constructor|].
  rewrite mapM_cons. simpl. constructor; [|apply IH].
  unfold assigned. destruct (needs_id a) eqn:E.
  - rewrite assign_needed by assumption. now exists (consumed w).
  - now rewrite assign_settled.
Qed.

Lemma pass_unfold (w : world) :
  pass entropy w =
  if existsb needs_id (answers (store w))
  then let r := mapM assign (answers (store w)) (after_poll entropy w) in
       mkWorld (consumed (snd r))
         (merge (PatchAnswers (fst r)) (store (snd r)))
         (trace (snd r) ++ [PatchAnswers (fst r)])
  else after_poll entropy w.
Proof.
  unfold pass, id_effect, after_poll, bind, ret, setAttributes, uuidv4.
  destruct (truthy (pollId (store w))); simpl;
    destruct (existsb needs_id (answers (store w))); simpl; try reflexivity.
  - destruct (mapM assign (answers (store w)) w) as [l' w']. reflexivity.
  - match goal with |- context [mapM ?f ?l ?x] => destruct (mapM f l x) as [l' w'] end.
    reflexivity.
Qed.

Lemma after_poll_answers (w : world) :
  answers (store (after_poll entropy w)) = answers (store w).
Proof. unfold after_poll. now destruct (truthy (pollId (store w))). Qed.

Lemma after_poll_pollId (w : world) :
  pollId (store (after_poll entropy w)) =
  if truthy (pollId (store w)) then pollId (store w)
  else VStr (fresh (consumed w)).
Proof. unfold after_poll. now destruct (truthy (pollId (store w))). Qed.

Lemma pass_pollId (w : world) :
  pollId (store (pass entropy w)) =
  if truthy (pollId (store w)) then pollId (store w)
  else VStr (fresh (consumed w)).
Proof.
  rewrite pass_unfold.
  destruct (existsb needs_id (answers (store w))); [|apply after_poll_pollId].
  simpl. destruct (mapM_assign_frame (answers (store w)) (after_poll entropy w)) as [Hs _].
  rewrite Hs. apply after_poll_pollId.
Qed.

Lemma pass_answers (w : world) :
  answers (store (pass entropy w)) =
  fst (mapM assign (answers (store w)) (after_poll entropy w)).
Proof.
  rewrite pass_unfold.
  destruct (existsb needs_id (answers (store w))) eqn:E; [reflexivity|].
  rewrite mapM_assign_none by assumption. apply after_poll_answers.
Qed.

Lemma pass_pollId_truthy (w : world) :
  truthy (pollId (store (pass entropy w))) = true.
Proof.
  rewrite pass_pollId. destruct (truthy (pollId (store w))) eqn:E;
    [assumption | apply uuid_at_truthy].
Qed.

(** Once the poll id and every eligible answer id are there, a pass
    writes nothing and draws nothing. *)
Lemma pass_settled (w : world) :
  truthy (pollId (store w)) = true ->
  existsb needs_id (answers (store w)) = false ->
  pass entropy w = w.
Proof.
  intros Hp Ha. rewrite pass_unfold, Ha. unfold after_poll. now rewrite Hp.
Qed.

Lemma pass_idempotent (w : world) :
  pass entropy (pass entropy w) = pass entropy w.
Proof.
  apply pass_settled; [apply pass_pollId_truthy|].
  rewrite pass_answers. apply mapM_assign_settles.
Qed.

(** C1. If [pollId] is unset, one pass sets it to the identifier freshly
    drawn from [uuidv4], which is a non-empty string, through a
    [setAttributes] call; a second pass on the resulting state changes
    nothing: no further [setAttributes] call, same store.  In general a
    pass is a no-op once [pollId] and all eligible [answerId]s are
    populated. *)
Theorem pollId_assigned_once (w : world) :
  truthy (pollId (store w)) = false ->
  let w1 := pass entropy w in
  pollId (store w1) = VStr (fresh (consumed w)) /\
  fresh (consumed w) <> "" /\
  (exists rest,
     trace w1 = trace w ++ PatchPollId (VStr (fresh (consumed w))) :: rest) /\
  pass entropy w1 = w1 /\
  (forall w', truthy (pollId (store w')) = true ->
              existsb needs_id (answers (store w')) = false ->
              pass entropy w' = w').
Proof.
  intros Hunset w1. subst w1.
  split; [|split; [|split; [|split]]].
  - rewrite pass_pollId, Hunset. reflexivity.
  - apply uuid_at_nonempty.
  - rewrite pass_unfold.
    destruct (mapM_assign_frame (answers (store w)) (after_poll entropy w)) as [_ Ht].
    destruct (existsb needs_id (answers (store w))); simpl.
    + rewrite Ht. unfold after_poll. rewrite Hunset. simpl.
      eexists. rewrite <- app_assoc. reflexivity.
    + unfold after_poll. rewrite Hunset. simpl. now eexists.
  - apply pass_idempotent.
  - apply pass_settled.
Qed.

(** C2. Position by position over the ordered answer list: an answer
    with non-empty text and no [answerId] gets a non-empty [answerId] (a
    fresh identifier) and keeps its text; an answer with empty text is
    returned as it is, so one without [answerId] still has none; an answer
    that already had an [answerId] is returned as it is. *)
Theorem answers_assigned_pointwise (w : world) :
  Forall2
    (fun a a' : gmap string value =>
       (truthy (get a "text") = true ->
        truthy (get a "answerId") = false ->
        truthy (get a' "answerId") = true /\
        (exists pos, get a' "answerId" = VStr (fresh pos)) /\
        get a' "text" = get a "text") /\
       (truthy (get a "text") = false ->
        a' = a /\
        (truthy (get a "answerId") = false ->
         truthy (get a' "answerId") = false)) /\
       (truthy (get a "answerId") = true -> a' = a))
    (answers (store w)) (answers (store (pass entropy w))).
Proof.
  rewrite pass_answers.
  eapply Forall2_impl; [apply mapM_assign_pointwise|].
  intros a a' Ha. unfold assigned, needs_id in Ha.
  destruct (truthy (get a "answerId")) eqn:Hid,
           (truthy (get a "text")) eqn:Htext; simpl in Ha.
  - subst a'. repeat split; intros; try discriminate; congruence.
  - subst a'. repeat split; intros; try discriminate; congruence.
  - destruct Ha as [pos ->]. split; [|split]; intros; try discriminate.
    rewrite get_insert_eq, get_insert_ne by discriminate.
    split; [apply uuid_at_truthy|]. split; [now exists pos | reflexivity].
  - subst a'. repeat split; intros; try discriminate; congruence.
Qed.

End Pass.

(** ** Closed and open polls *)

Lemma strict_eq_true (a b : value) : strict_eq a b = true <-> a = b.
Proof. unfold strict_eq. apply bool_decide_eq_true. Qed.

Lemma strict_eq_false (a b : value) : strict_eq a b = false <-> a <> b.
Proof. unfold strict_eq. apply bool_decide_eq_false. Qed.

(** C3. [isClosed] is true exactly when the status is explicitly closed,
    or a closed-after timestamp is set and is not later than the current
    time; with the four sample readings of the spec. *)
Theorem isPollClosed_spec_correct (PollStatus : PollStatusT) (now : Z) :
  OPEN PollStatus <> CLOSED PollStatus ->
  (forall status closedAfter,
     isPollClosed_spec PollStatus now status closedAfter = true <->
     status = VStr (CLOSED PollStatus) \/
     exists t, closedAfter = Some t /\ t <= now) /\
  isPollClosed_spec PollStatus now (VStr (OPEN PollStatus)) None = false /\
  isPollClosed_spec PollStatus now (VStr (CLOSED PollStatus)) None = true /\
  (forall past, past <= now ->
     isPollClosed_spec PollStatus now (VStr (OPEN PollStatus)) (Some past) = true) /\
  (forall future, now < future ->
     isPollClosed_spec PollStatus now (VStr (OPEN PollStatus)) (Some future) = false).
Proof.
  intros Hne.
  assert (Hopen : strict_eq (VStr (OPEN PollStatus)) (VStr (CLOSED PollStatus)) = false).
  { apply strict_eq_false. congruence. }
  unfold isPollClosed_spec. repeat split.
  - intros H. apply orb_true_iff in H as [H|H].
    + left. now apply strict_eq_true.
    + right. destruct closedAfter as [t|]; [|discriminate].
      exists t. split; [reflexivity | now apply Z.leb_le].
  - intros [->|[t [-> Ht]]]; apply orb_true_iff.
    + left. now apply strict_eq_true.
    + right. now apply Z.leb_le.
  - now rewrite Hopen.
  - apply orb_true_iff. left. now apply strict_eq_true.
  - intros past Hp. rewrite Hopen. now apply Z.leb_le.
  - intros future Hf. rewrite Hopen. now apply Z.leb_gt.
Qed.

Section Flags.

Variable isPollClosed : value -> value -> bool.
Variable ClosedPollState : ClosedPollStateT.

(** C5. [showResults] is true iff [isClosed] is true and the closed-state
    behaviour is the show-results one; it is never true when [isClosed]
    is false. *)
Theorem showResults_iff (attributes : attrs) :
  (showResults isPollClosed ClosedPollState attributes = true <->
   isClosed isPollClosed attributes = true /\
   closedPollState attributes = VStr (SHOW_RESULTS ClosedPollState)) /\
  (isClosed isPollClosed attributes = false ->
   showResults isPollClosed ClosedPollState attributes = false).
Proof.
  unfold showResults. split.
  - rewrite andb_true_iff, strict_eq_true. intuition congruence.
  - intros ->. reflexivity.
Qed.

(** C6. With the closed-state behaviour on one of the two values of the
    enumeration (two values, so distinct ones), [isHidden] and
    [showResults] are never both true. *)
Theorem isHidden_showResults_exclusive (attributes : attrs) :
  SHOW_RESULTS ClosedPollState <> HIDDEN ClosedPollState ->
  closedPollState attributes = VStr (SHOW_RESULTS ClosedPollState) \/
  closedPollState attributes = VStr (HIDDEN ClosedPollState) ->
  isHidden isPollClosed ClosedPollState attributes &&
  showResults isPollClosed ClosedPollState attributes = false.
Proof.
  intros Hne _. unfold isHidden, showResults.
  destruct (isClosed isPollClosed attributes); [simpl|reflexivity].
  apply andb_false_iff.
  destruct (strict_eq (VStr (HIDDEN ClosedPollState)) (closedPollState attributes)) eqn:Hh;
    [right | now left].
  apply strict_eq_true in Hh. apply strict_eq_false.
  rewrite <- Hh. congruence.
Qed.

End Flags.

(** ** The note *)

(** C10. [showNote] is truthy exactly when the note is non-empty, or the
    block is selected and the poll is editable; a non-empty note is
    rendered, as a paragraph, even when the block is neither selected nor
    editable. *)
Theorem showNote_iff (decodeEntities : value -> value) (attributes : attrs)
    (isSelected isPollEditable : bool) :
  (truthy (showNote attributes isSelected isPollEditable) = true <->
   truthy (note attributes) = true \/
   (isSelected = true /\ isPollEditable = true)) /\
  (truthy (note attributes) = true ->
   truthy (showNote attributes false false) = true /\
   render_note decodeEntities attributes false false =
     NoteParagraph (decodeEntities (note attributes))).
Proof.
  unfold render_note, showNote, js_or. split.
  - destruct (truthy (note attributes)) eqn:E; simpl.
    + rewrite E. intuition.
    + rewrite andb_true_iff. intuition discriminate.
  - intros H. rewrite !H. simpl. now split.
Qed.

(** ** The edit lock *)

Lemma is_prefix_spec (p s : string) :
  is_prefix p s = true <-> exists post, s = p +:+ post.
Proof.
  revert s. induction p as [|a p IH]; intros s; simpl.
  - split; [intros _; now exists s | reflexivity].
  - destruct s as [|b s].
    + split; [discriminate | intros [post H]; discriminate].
    + rewrite andb_true_iff, Ascii.eqb_eq, IH. split.
      * intros [-> [post ->]]. now exists post.
      * intros [post H]. injection H as -> ->. split; [reflexivity | now exists post].
Qed.

Lemma includes_spec (needle hay : string) :
  includes needle hay = true <-> exists pre post, hay = pre +:+ needle +:+ post.
Proof.
  induction hay as [|c hay IH]; simpl; rewrite orb_true_iff, is_prefix_spec.
  - split.
    + intros [[post H]|H]; [|discriminate]. now exists "", post.
    + intros [pre [post H]]. left. destruct pre; [now exists post | discriminate].
  - rewrite IH. split.
    + intros [[post H]|[pre [post H]]].
      * now exists "", post.
      * exists (String c pre), post. simpl. now rewrite H.
    + intros [pre [post H]]. destruct pre as [|c' pre]; simpl in H.
      * left. now exists post.
      * right. injection H as -> ->. now exists pre, post.
Qed.

(** C4, as the code has it.  With the document status ["publish"] and
    the poll's identifier string textually present in the raw content,
    the block initializes as not editable ([useState( true )] followed by
    the effect that runs on mount); with the status ["draft"] it
    initializes as editable whatever the content (and whatever the
    presence check answers). *)
Theorem edit_lock_on_mount (attributes : attrs) (postDetails : Post.t) :
  (forall s pre post,
     Post.status postDetails = VStr "publish" ->
     pollId attributes = VStr s ->
     Post.content postDetails = pre +:+ s +:+ post ->
     isPollEditable_on_mount pollIdExistsInPageContent_spec
       attributes postDetails = false) /\
  (forall pollIdExistsInPageContent,
     Post.status postDetails = VStr "draft" ->
     isPollEditable_on_mount pollIdExistsInPageContent
       attributes postDetails = true).
Proof.
  unfold isPollEditable_on_mount, ui_step, wasBlockAddedBeforeLastPublish.
  split.
  - intros s pre post Hst Hid Hc. rewrite Hst, Hid. simpl.
    replace (includes s (Post.content postDetails)) with true; [reflexivity|].
    symmetry. apply includes_spec. now exists pre, post.
  - intros f Hst. rewrite Hst. reflexivity.
Qed.

(** ** The API snapshot *)

Lemma assign_key_other (o : plain_object) (k c : string) (v : value) :
  k <> c -> own (assign_key o k v) !! c = own o !! c.
Proof.
  intros Hne. unfold assign_key.
  destruct (String.eqb k "__proto__" && inherits o).
  - now destruct v.
  - simpl. now apply lookup_insert_ne.
Qed.

Lemma assign_key_plain (o : plain_object) (k : string) (v : value) :
  k <> "__proto__" ->
  assign_key o k v = mkPlain (<[k := v]> (own o)) (inherits o).
Proof.
  intros Hne. unfold assign_key.
  replace (String.eqb k "__proto__") with false; [reflexivity|].
  symmetry. now apply String.eqb_neq.
Qed.

Lemma assign_entries_app (o : plain_object) (l l' : list ApiAnswer.t) :
  assign_entries o (l ++ l') = assign_entries (assign_entries o l) l'.
Proof. unfold assign_entries. apply foldl_app. Qed.

Lemma assign_entries_absent (l : list ApiAnswer.t) (o : plain_object)
    (c : string) :
  (forall e, e ∈ l -> ApiAnswer.client_id e <> c) ->
  own (assign_entries o l) !! c = own o !! c.
Proof.
  revert o. induction l as [|e l IH]; intros o H; [reflexivity|].
  change (assign_entries o (e :: l))
    with (assign_entries
            (assign_key o (ApiAnswer.client_id e) (ApiAnswer.id e)) l).
  rewrite IH.
  - apply assign_key_other, H. now left.
  - intros e' He'. apply H. now right.
Qed.

(** The entry that counts for a [client_id] is the last one. *)
Lemma answerIdMap_last (d : PollData.t) (pre post : list ApiAnswer.t)
    (c : string) (n : value) :
  c <> "__proto__" ->
  PollData.answers d = pre ++ ApiAnswer.mk c n :: post ->
  (forall e, e ∈ post -> ApiAnswer.client_id e <> c) ->
  answerIdMap (Some d) !! c = Some n.
Proof.
  intros Hc Hd Hpost. unfold answerIdMap.
  rewrite Hd, assign_entries_app.
  change (assign_entries ?o (ApiAnswer.mk c n :: post))
    with (assign_entries (assign_key o c n) post).
  rewrite assign_entries_absent by assumption.
  rewrite assign_key_plain by assumption. simpl.
  apply lookup_insert_eq.
Qed.


(** In a snapshot without repeated [client_id]s, an entry is found
    under its [client_id], unless that is ["__proto__"]. *)
Lemma answerIdMap_found (d : PollData.t) (e : ApiAnswer.t) :
  NoDup (ApiAnswer.client_id <$> PollData.answers d) ->
  e ∈ PollData.answers d ->
  ApiAnswer.client_id e <> "__proto__" ->
  answerIdMap (Some d) !! ApiAnswer.client_id e = Some (ApiAnswer.id e).
Proof.
  intros Hnd He Hc. apply list_elem_of_split in He as (pre & post & Hsplit).
  apply (answerIdMap_last d pre post); [assumption | now destruct e |].
  intros e' He' Heq. rewrite Hsplit, fmap_app, fmap_cons in Hnd.
  apply NoDup_app in Hnd as (_ & _ & Hnd).
  apply NoDup_cons in Hnd as [Hnotin _]. apply Hnotin.
  rewrite <- Heq. apply list_elem_of_fmap. now exists e'.
Qed.

(** C9. With no poll data (the fetch is pending), the results URL is
    empty, the numeric poll id is null and the correlation map is empty;
    these are plain values of total functions. *)
Theorem no_remote_poll_data :
  viewResultsUrl None = VStr "" /\
  pollIdFromApi None = VNull /\
  answerIdMap None = ∅ /\
  (forall c, answerIdMap None !! c = None).
Proof. repeat split. Qed.

Section Results.

Variable isPollClosed : value -> value -> bool.
Variable pollIdExistsInPageContent : value -> string -> bool.
Variable ClosedPollState : ClosedPollStateT.
Variable decodeEntities : value -> value.
Variable isAnswerEmpty : gmap string value -> bool.


End Results.

(** ** The written identifiers against the schema *)

Lemma fresh_id_not_a_number (entropy : nat -> Z) (pos : nat) :
  conforms (Some TNumber) (VStr (uuid_at entropy pos)) = false.
Proof. reflexivity. Qed.

(** C7.  On a block just inserted whose first answer has been typed, the
    pass writes a string to [pollId] and to the answer's [answerId],
    while the schema declares both fields as numbers: neither patch
    conforms to the schema. *)
Theorem written_ids_break_schema :
  let w1 := pass Sample.entropy Sample.w_fresh in
  trace w1 =
    [PatchPollId (VStr "052a4f74-99be-4308-ad52-779cc1e60b30");
     PatchAnswers
       [<["answerId" := VStr "557a9fc4-e90e-4358-bda2-c7ec11365b80"]> Sample.yes;
        Sample.blank; Sample.blank]] /\
  schema_type "pollId" = Some TNumber /\
  type_of (pollId (store w1)) = TString /\
  answer_schema_type "answerId" = Some TNumber /\
  map (fun a => type_of (get a "answerId")) (answers (store w1))
    = [TString; TNullish; TNullish] /\
  map patch_conforms (trace w1) = [false; false].
Proof. vm_compute. repeat split. Qed.

(** * Instances on the sample inputs *)

Lemma pollId_assigned_once_witness :
  truthy (pollId (store Sample.w_mixed)) = false /\
  pollId (store (pass Sample.entropy Sample.w_mixed))
    = VStr "052a4f74-99be-4308-ad52-779cc1e60b30" /\
  pass Sample.entropy (pass Sample.entropy Sample.w_mixed)
    = pass Sample.entropy Sample.w_mixed.
Proof.
  split; [reflexivity|].
  destruct (pollId_assigned_once Sample.entropy Sample.w_mixed eq_refl)
    as (Hid & _ & _ & Hagain & _).
  split; [exact Hid | exact Hagain].
Defined.

Lemma answers_assigned_pointwise_witness :
  Forall2
    (fun a a' : gmap string value =>
       (truthy (get a "text") = true ->
        truthy (get a "answerId") = false ->
        truthy (get a' "answerId") = true /\
        (exists pos, get a' "answerId" = VStr (uuid_at Sample.entropy pos)) /\
        get a' "text" = get a "text") /\
       (truthy (get a "text") = false ->
        a' = a /\
        (truthy (get a "answerId") = false ->
         truthy (get a' "answerId") = false)) /\
       (truthy (get a "answerId") = true -> a' = a))
    [Sample.yes; Sample.blank; Sample.cleared; Sample.voted]
    [<["answerId" := VStr "557a9fc4-e90e-4358-bda2-c7ec11365b80"]> Sample.yes;
     Sample.blank; Sample.cleared; Sample.voted].
Proof. exact (answers_assigned_pointwise Sample.entropy Sample.w_mixed). Defined.

Lemma isPollClosed_spec_correct_witness :
  OPEN Sample.PollStatus <> CLOSED Sample.PollStatus /\
  isPollClosed_spec Sample.PollStatus 1000 (VStr "open") None = false /\
  isPollClosed_spec Sample.PollStatus 1000 (VStr "closed") None = true /\
  isPollClosed_spec Sample.PollStatus 1000 (VStr "open") (Some 999) = true /\
  isPollClosed_spec Sample.PollStatus 1000 (VStr "open") (Some 1001) = false.
Proof.
  assert (Hne : OPEN Sample.PollStatus <> CLOSED Sample.PollStatus)
    by discriminate.
  split; [exact Hne|].
  destruct (isPollClosed_spec_correct Sample.PollStatus 1000 Hne)
    as (_ & Hopen & Hclosed & Hpast & Hfuture).
  split; [exact Hopen|]. split; [exact Hclosed|].
  split; [apply Hpast; lia | apply Hfuture; lia].
Defined.

Lemma edit_lock_on_mount_witness :
  isPollEditable_on_mount pollIdExistsInPageContent_spec
    Sample.hidden_block Sample.post_publish = false /\
  isPollEditable_on_mount pollIdExistsInPageContent_spec
    Sample.hidden_block Sample.post_draft = true.
Proof.
  split.
  - apply (proj1 (edit_lock_on_mount Sample.hidden_block Sample.post_publish)
             "abc" "<!-- wp:crowdsignal-forms/poll {pollId:" "} /-->");
      reflexivity.
  - apply (proj2 (edit_lock_on_mount Sample.hidden_block Sample.post_draft));
      reflexivity.
Defined.

(** C4 as stated fails: with the status ["published"] and the poll's
    identifier textually present in the content, the block is editable
    once mounted. *)
Lemma published_status_is_not_locked :
  Post.status Sample.post_published = VStr "published" /\
  pollId Sample.hidden_block = VStr "abc" /\
  Post.content Sample.post_published
    = "<!-- wp:crowdsignal-forms/poll {pollId:" +:+ "abc" +:+ "} /-->" /\
  pollIdExistsInPageContent_spec (pollId Sample.hidden_block)
    (Post.content Sample.post_published) = true /\
  isPollEditable_on_mount pollIdExistsInPageContent_spec
    Sample.hidden_block Sample.post_published = true.
Proof. repeat split. Qed.

Lemma showResults_iff_witness :
  showResults (fun _ _ => true) Sample.ClosedPollState Sample.fresh_block = true /\
  showResults (fun _ _ => false) Sample.ClosedPollState Sample.fresh_block = false.
Proof.
  split.
  - apply (proj1 (showResults_iff (fun _ _ => true) Sample.ClosedPollState
                    Sample.fresh_block)). now split.
  - apply (proj2 (showResults_iff (fun _ _ => false) Sample.ClosedPollState
                    Sample.fresh_block)). reflexivity.
Defined.

Lemma isHidden_showResults_exclusive_witness :
  SHOW_RESULTS Sample.ClosedPollState <> HIDDEN Sample.ClosedPollState /\
  isHidden (fun _ _ => true) Sample.ClosedPollState Sample.hidden_block = true /\
  isHidden (fun _ _ => true) Sample.ClosedPollState Sample.hidden_block &&
  showResults (fun _ _ => true) Sample.ClosedPollState Sample.hidden_block = false.
Proof.
  split; [discriminate|]. split; [reflexivity|].
  apply (isHidden_showResults_exclusive (fun _ _ => true)
           Sample.ClosedPollState Sample.hidden_block).
  - discriminate.
  - right. reflexivity.
Defined.



Lemma showNote_iff_witness :
  truthy (showNote Sample.hidden_block false false) = true /\
  render_note (fun v => v) Sample.hidden_block false false
    = NoteParagraph (VStr "a note").
Proof.
  apply (proj2 (showNote_iff (fun v => v) Sample.hidden_block false false)).
  reflexivity.
Defined.

(** * Further properties *)

(** ** The pass as a function of the entropy position *)

Section PassDraws.

Variable entropy : nat -> Z.

Lemma assign_from_cons (pos : nat) (a : gmap string value)
    (l : list (gmap string value)) :
  assign_from entropy pos (a :: l) =
  if needs_id a
  then (<["answerId" := VStr (uuid_at entropy pos)]> a
          :: fst (assign_from entropy (pos + 16)%nat l),
        snd (assign_from entropy (pos + 16)%nat l))
  else (a :: fst (assign_from entropy pos l), snd (assign_from entropy pos l)).
Proof.
  simpl. destruct (needs_id a).
  - now destruct (assign_from entropy (pos + 16)%nat l).
  - now destruct (assign_from entropy pos l).
Qed.

Lemma mapM_assign_from (l : list (gmap string value)) (w : world) :
  mapM (assign_answer_id entropy) l w =
  (fst (assign_from entropy (consumed w) l),
   mkWorld (snd (assign_from entropy (consumed w) l)) (store w) (trace w)).
Proof.
  revert w. induction l as [|a l IH]; intros w.
  - now destruct w.
  - rewrite mapM_cons, assign_from_cons. destruct (needs_id a) eqn:E.
    + rewrite assign_needed by assumption. simpl. now rewrite IH.
    + rewrite assign_settled by assumption. simpl. now rewrite IH.
Qed.

Lemma count_needs_cons (a : gmap string value) (l : list (gmap string value)) :
  count_needs (a :: l) =
  ((if needs_id a then 1 else 0) + count_needs l)%nat.
Proof. unfold count_needs. simpl. now destruct (needs_id a). Qed.

Lemma assign_from_snd (pos : nat) (l : list (gmap string value)) :
  snd (assign_from entropy pos l) = (pos + 16 * count_needs l)%nat.
Proof.
  revert pos. induction l as [|a l IH]; intros pos.
  - simpl. unfold count_needs. simpl. lia.
  - rewrite assign_from_cons, count_needs_cons.
    destruct (needs_id a); simpl; rewrite IH; lia.
Qed.

Lemma assign_from_lookup (pos : nat) (l : list (gmap string value))
    (i : nat) (a : gmap string value) :
  l !! i = Some a ->
  fst (assign_from entropy pos l) !! i =
  Some (if needs_id a
        then <["answerId" :=
                 VStr (uuid_at entropy (pos + 16 * count_needs (take i l)))]> a
        else a).
Proof.
  revert pos i. induction l as [|b l IH]; intros pos i Hi; [discriminate|].
  rewrite assign_from_cons. destruct i as [|i]; simpl in Hi.
  - injection Hi as ->. simpl. unfold count_needs. simpl.
    rewrite Nat.add_0_r. now destruct (needs_id a).
  - rewrite firstn_cons, count_needs_cons.
    destruct (needs_id b); simpl; rewrite (IH _ _ Hi);
      do 2 f_equal; destruct (needs_id a); try reflexivity;
      do 3 f_equal; lia.
Qed.

Lemma count_needs_existsb (l : list (gmap string value)) :
  existsb needs_id l = false -> count_needs l = 0%nat.
Proof.
  induction l as [|a l IH]; [reflexivity|]. simpl. intros H.
  apply orb_false_iff in H as [Ha Hl]. rewrite count_needs_cons, Ha. now apply IH.
Qed.


Lemma after_poll_consumed (w : world) :
  consumed (after_poll entropy w) = answers_base w.
Proof. unfold after_poll, answers_base. now destruct (truthy (pollId (store w))). Qed.

Lemma after_poll_trace (w : world) :
  trace (after_poll entropy w) =
  trace w ++ (if truthy (pollId (store w)) then []
              else [PatchPollId (VStr (uuid_at entropy (consumed w)))]).
Proof.
  unfold after_poll. destruct (truthy (pollId (store w))); simpl;
    [now rewrite app_nil_r | reflexivity].
Qed.

Lemma pass_answers_from (w : world) :
  answers (store (pass entropy w)) =
  fst (assign_from entropy (answers_base w) (answers (store w))).
Proof.
  now rewrite pass_answers, mapM_assign_from, after_poll_consumed.
Qed.

Lemma pass_trace_writes (w : world) :
  trace (pass entropy w) = trace w ++ pass_writes entropy w.
Proof.
  rewrite pass_unfold. unfold pass_writes.
  destruct (existsb needs_id (answers (store w))).
  - rewrite mapM_assign_from. simpl.
    now rewrite after_poll_consumed, after_poll_trace, <- app_assoc.
  - now rewrite after_poll_trace, app_nil_r.
Qed.

Lemma pass_consumed (w : world) :
  consumed (pass entropy w) =
  (answers_base w + 16 * count_needs (answers (store w)))%nat.
Proof.
  rewrite pass_unfold.
  destruct (existsb needs_id (answers (store w))) eqn:E.
  - rewrite mapM_assign_from. simpl.
    now rewrite assign_from_snd, after_poll_consumed.
  - rewrite after_poll_consumed, count_needs_existsb by assumption. lia.
Qed.

Lemma iter_pass_S (n : nat) (w : world) :
  Nat.iter (S n) (pass entropy) w = pass entropy w.
Proof.
  induction n as [|n IH]; [reflexivity|].
  change (Nat.iter (S (S n)) (pass entropy) w)
    with (pass entropy (Nat.iter (S n) (pass entropy) w)).
  rewrite IH. apply pass_idempotent.
Qed.

(** X1. A poll id that is there is never reassigned, however many
    passes run. *)
Theorem pollId_never_reassigned (n : nat) (w : world) :
  truthy (pollId (store w)) = true ->
  pollId (store (Nat.iter n (pass entropy) w)) = pollId (store w) /\
  (forall v, PatchPollId v ∉ pass_writes entropy w).
Proof.
  intros Hset. split.
  - destruct n as [|n]; [reflexivity|].
    rewrite iter_pass_S, pass_pollId. now rewrite Hset.
  - intros v Hin. unfold pass_writes in Hin. rewrite Hset in Hin. simpl in Hin.
    destruct (existsb needs_id (answers (store w)));
      [apply list_elem_of_singleton in Hin; discriminate | inversion Hin].
Qed.

(** X2. One pass calls [setAttributes] at most twice: with the poll id
    if it was missing, then with the whole answer list if some answer
    needed an id; each patch has one key. *)
Theorem pass_trace_shape (w : world) :
  trace (pass entropy w) = trace w ++ pass_writes entropy w /\
  (length (pass_writes entropy w) <= 2)%nat /\
  (pass_writes entropy w = [] <->
   truthy (pollId (store w)) = true /\
   existsb needs_id (answers (store w)) = false).
Proof.
  split; [apply pass_trace_writes|]. unfold pass_writes.
  destruct (truthy (pollId (store w))),
           (existsb needs_id (answers (store w))); simpl;
    (split; [lia | split; [try discriminate; intros _; now split
                          | intros [? ?]; try discriminate; reflexivity]]).
Qed.

(** X3. Every identifier comes from its own 16 bytes of entropy: the
    answer at position [i] that needs an id gets the one printed from the
    bytes at [answers_base w + 16 * k], where [k] is the number of answers
    before it that needed one; the poll id, if drawn, comes from the bytes
    before [answers_base w]. *)
Theorem each_answer_has_its_own_draw (w : world) (i : nat)
    (a : gmap string value) :
  answers (store w) !! i = Some a ->
  needs_id a = true ->
  answers (store (pass entropy w)) !! i =
    Some (<["answerId" :=
              VStr (uuid_at entropy
                      (answers_base w +
                       16 * count_needs (take i (answers (store w)))))]> a) /\
  (forall j b, (i < j)%nat ->
     answers (store w) !! j = Some b -> needs_id b = true ->
     (answers_base w + 16 * count_needs (take i (answers (store w))) + 16
      <= answers_base w + 16 * count_needs (take j (answers (store w))))%nat) /\
  (truthy (pollId (store w)) = false ->
   (consumed w + 16 <= answers_base w)%nat).
Proof.
  intros Hi Hneed. split; [|split].
  - rewrite pass_answers_from, (assign_from_lookup _ _ _ _ Hi).
    now rewrite Hneed.
  - intros j b Hij Hj _.
    assert (Hsplit : take j (answers (store w)) =
                     take i (answers (store w)) ++ a ::
                     take (j - S i) (drop (S i) (answers (store w)))).
    { rewrite <- (take_drop_middle _ _ _ Hi) at 1.
      assert (Hlen : length (take i (answers (store w))) = i).
      { apply length_take_le. apply lookup_lt_Some in Hi. lia. }
      rewrite take_app, Hlen.
      rewrite take_ge by lia.
      replace (j - i)%nat with (S (j - S i)) by lia. reflexivity. }
    rewrite Hsplit. unfold count_needs.
    rewrite List.filter_app, length_app. simpl. rewrite Hneed. simpl. lia.
  - intros Hunset. unfold answers_base. rewrite Hunset. lia.
Qed.

(** X4. One pass draws exactly one identifier per gap: 16 bytes for the
    poll id if it was missing, and 16 bytes for each answer that has text
    and no id. *)
Theorem pass_draws_one_id_per_gap (w : world) :
  consumed (pass entropy w) =
  (consumed w +
   16 * ((if truthy (pollId (store w)) then 0 else 1) +
         count_needs (answers (store w))))%nat.
Proof.
  rewrite pass_consumed. unfold answers_base.
  destruct (truthy (pollId (store w))); lia.
Qed.

End PassDraws.

(** ** What the pass leaves alone *)

Section PassFrame.

Variable entropy : nat -> Z.

Lemma merge_PatchAnswers_frame (l : list (gmap string value)) (a : attrs) :
  question (merge (PatchAnswers l) a) = question a /\
  note (merge (PatchAnswers l) a) = note a /\
  pollStatus (merge (PatchAnswers l) a) = pollStatus a /\
  closedPollState (merge (PatchAnswers l) a) = closedPollState a /\
  closedAfterDateTime (merge (PatchAnswers l) a) = closedAfterDateTime a.
Proof. repeat split. Qed.

Lemma after_poll_frame (w : world) :
  question (store (after_poll entropy w)) = question (store w) /\
  note (store (after_poll entropy w)) = note (store w) /\
  pollStatus (store (after_poll entropy w)) = pollStatus (store w) /\
  closedPollState (store (after_poll entropy w)) = closedPollState (store w) /\
  closedAfterDateTime (store (after_poll entropy w))
    = closedAfterDateTime (store w).
Proof.
  unfold after_poll. destruct (truthy (pollId (store w))); repeat split.
Qed.

(** X5. The pass touches [pollId] and the [answerId] of answers only:
    the question, the note, the status, the closed-state behaviour and the
    closed-after time are as before; the answers are as many as before and
    each keeps every property other than [answerId]. *)
Theorem pass_touches_ids_only (w : world) :
  question (store (pass entropy w)) = question (store w) /\
  note (store (pass entropy w)) = note (store w) /\
  pollStatus (store (pass entropy w)) = pollStatus (store w) /\
  closedPollState (store (pass entropy w)) = closedPollState (store w) /\
  closedAfterDateTime (store (pass entropy w)) = closedAfterDateTime (store w) /\
  Forall2 (fun a a' : gmap string value =>
             forall k, k <> "answerId" -> a' !! k = a !! k)
    (answers (store w)) (answers (store (pass entropy w))).
Proof.
  assert (Hframe :
    question (store (pass entropy w)) = question (store w) /\
    note (store (pass entropy w)) = note (store w) /\
    pollStatus (store (pass entropy w)) = pollStatus (store w) /\
    closedPollState (store (pass entropy w)) = closedPollState (store w) /\
    closedAfterDateTime (store (pass entropy w)) = closedAfterDateTime (store w)).
  { rewrite pass_unfold.
    destruct (existsb needs_id (answers (store w))); [|apply after_poll_frame].
    rewrite mapM_assign_from. simpl. apply after_poll_frame. }
  destruct Hframe as (H1 & H2 & H3 & H4 & H5).
  repeat (split; [assumption|]).
  rewrite pass_answers.
  eapply Forall2_impl; [apply mapM_assign_pointwise|].
  intros a a' Ha k Hk. unfold assigned in Ha.
  destruct (needs_id a); [|now subst].
  destruct Ha as [pos ->]. apply lookup_insert_ne. congruence.
Qed.

(** X6. The render loop settles after the first pass: any further number
    of passes gives the same world, so over a whole session the wrapper
    calls [setAttributes] at most twice. *)
Theorem pass_settles_after_one (n : nat) (w : world) :
  Nat.iter (S n) (pass entropy) w = pass entropy w /\
  (length (trace (Nat.iter n (pass entropy) w)) <= length (trace w) + 2)%nat.
Proof.
  split; [apply iter_pass_S|].
  destruct n as [|n]; [simpl; lia|].
  rewrite iter_pass_S, pass_trace_writes, length_app.
  unfold pass_writes.
  destruct (truthy (pollId (store w))),
           (existsb needs_id (answers (store w))); simpl; lia.
Qed.

Lemma assign_from_has_string_id (pos : nat) (l : list (gmap string value)) :
  existsb needs_id l = true ->
  forallb answer_conforms (fst (assign_from entropy pos l)) = false.
Proof.
  revert pos. induction l as [|a l IH]; intros pos H; [discriminate|].
  rewrite assign_from_cons. destruct (needs_id a) eqn:E.
  - simpl. apply andb_false_iff. left.
    unfold answer_conforms. now rewrite get_insert_eq.
  - simpl in H. rewrite E in H. simpl in H. simpl.
    apply andb_false_iff. right. now apply IH.
Qed.

(** X7. Whatever the pass writes fails the schema: the poll id patch
    carries a string where [attributes.js] declares a number, and the
    answers patch carries at least one answer whose [answerId] is a
    string. *)
Theorem every_write_breaks_schema (w : world) (p : patch) :
  p ∈ pass_writes entropy w -> patch_conforms p = false.
Proof.
  unfold pass_writes. intros Hin. apply elem_of_app in Hin as [Hin|Hin].
  - destruct (truthy (pollId (store w))); [inversion Hin|].
    apply list_elem_of_singleton in Hin as ->. reflexivity.
  - destruct (existsb needs_id (answers (store w))) eqn:E; [|inversion Hin].
    apply list_elem_of_singleton in Hin as ->. simpl.
    now rewrite assign_from_has_string_id.
Qed.

(** X8. Editing the question or the note goes through a one-key patch
    that leaves the ids alone, and it does not change what the next pass
    assigns: the poll id and the answers after the pass are the same with
    or without the edit, and a settled block stays settled. *)
Theorem text_edits_keep_ids (w : world) (v : value) :
  let wq := snd (handleChangeQuestion v w) in
  let wn := snd (handleChangeNote v w) in
  (pollId (store wq) = pollId (store w) /\ answers (store wq) = answers (store w) /\
   question (store wq) = v /\ note (store wq) = note (store w)) /\
  (pollId (store wn) = pollId (store w) /\ answers (store wn) = answers (store w) /\
   note (store wn) = v /\ question (store wn) = question (store w)) /\
  (pollId (store (pass entropy wq)) = pollId (store (pass entropy w)) /\
   answers (store (pass entropy wq)) = answers (store (pass entropy w))) /\
  (pollId (store (pass entropy wn)) = pollId (store (pass entropy w)) /\
   answers (store (pass entropy wn)) = answers (store (pass entropy w))) /\
  (pass entropy w = w -> pass entropy wq = wq /\ pass entropy wn = wn).
Proof.
  intros wq wn. subst wq wn.
  split; [now repeat split|]. split; [now repeat split|].
  split; [|split].
  - split; [now rewrite !pass_pollId | now rewrite !pass_answers_from].
  - split; [now rewrite !pass_pollId | now rewrite !pass_answers_from].
  - intros Hfix.
    assert (Hp : truthy (pollId (store w)) = true).
    { rewrite <- Hfix. apply pass_pollId_truthy. }
    assert (Ha : existsb needs_id (answers (store w)) = false).
    { rewrite <- Hfix, pass_answers. apply mapM_assign_settles. }
    split; apply pass_settled; assumption.
Qed.

End PassFrame.

(** ** The correlation map *)

Lemma assign_key_sound (o : plain_object) (k c : string) (v n : value) :
  own (assign_key o k v) !! c = Some n ->
  own o !! c = Some n \/ (k = c /\ v = n).
Proof.
  unfold assign_key. destruct (String.eqb k "__proto__" && inherits o).
  - destruct v; simpl; now left.
  - simpl. destruct (decide (k = c)) as [->|Hne].
    + rewrite lookup_insert_eq. intros H. injection H as <-. now right.
    + rewrite lookup_insert_ne by assumption. now left.
Qed.

Lemma assign_entries_sound (l : list ApiAnswer.t) (o : plain_object)
    (c : string) (n : value) :
  own (assign_entries o l) !! c = Some n ->
  own o !! c = Some n \/
  exists e, e ∈ l /\ ApiAnswer.client_id e = c /\ ApiAnswer.id e = n.
Proof.
  revert o. induction l as [|e l IH]; intros o H; [now left|].
  change (assign_entries o (e :: l))
    with (assign_entries
            (assign_key o (ApiAnswer.client_id e) (ApiAnswer.id e)) l) in H.
  apply IH in H as [H|(e' & He' & Hc & Hn)].
  - apply assign_key_sound in H as [H|[Hc Hn]]; [now left|].
    right. exists e. split; [now left | now split].
  - right. exists e'. split; [now right | now split].
Qed.

Lemma assign_entries_present (l : list ApiAnswer.t) (o : plain_object)
    (c : string) :
  c <> "__proto__" ->
  is_Some (own o !! c) \/ (exists e, e ∈ l /\ ApiAnswer.client_id e = c) ->
  is_Some (own (assign_entries o l) !! c).
Proof.
  intros Hc. revert o. induction l as [|e l IH]; intros o H.
  - destruct H as [H|(e & He & _)]; [assumption | inversion He].
  - change (assign_entries o (e :: l))
      with (assign_entries
              (assign_key o (ApiAnswer.client_id e) (ApiAnswer.id e)) l).
    apply IH. destruct (decide (ApiAnswer.client_id e = c)) as [Heq|Hne].
    + left. rewrite assign_key_plain by congruence. simpl.
      rewrite Heq, lookup_insert_eq. eauto.
    + destruct H as [H|(e' & He' & Hc')].
      * left. now rewrite assign_key_other.
      * apply elem_of_cons in He' as [->|He']; [contradiction|].
        right. now exists e'.
Qed.

(** While the object has its prototype and no ["__proto__"] entry
    carries [null], assignments to ["__proto__"] store nothing. *)
Lemma assign_entries_proto_ignored (l : list ApiAnswer.t) (o : plain_object) :
  inherits o = true ->
  (forall e, e ∈ l -> ApiAnswer.client_id e = "__proto__" ->
             ApiAnswer.id e <> VNull) ->
  inherits (assign_entries o l) = true /\
  own (assign_entries o l) !! "__proto__" = own o !! "__proto__".
Proof.
  revert o. induction l as [|e l IH]; intros o Hinh Hids; [now split|].
  change (assign_entries o (e :: l))
    with (assign_entries
            (assign_key o (ApiAnswer.client_id e) (ApiAnswer.id e)) l).
  assert (Hl : forall e', e' ∈ l -> ApiAnswer.client_id e' = "__proto__" ->
                          ApiAnswer.id e' <> VNull).
  { intros e' He'. apply Hids. now right. }
  destruct (decide (ApiAnswer.client_id e = "__proto__")) as [Heq|Hne].
  - assert (Hsame : assign_key o (ApiAnswer.client_id e) (ApiAnswer.id e) = o).
    { unfold assign_key. rewrite Heq, Hinh. simpl.
      pose proof (Hids e (list_elem_of_here _ _) Heq) as Hid.
      now destruct (ApiAnswer.id e). }
    rewrite Hsame. now apply IH.
  - rewrite assign_key_plain by assumption.
    destruct (IH (mkPlain (<[ApiAnswer.client_id e := ApiAnswer.id e]> (own o))
                    (inherits o)) Hinh Hl) as [H1 H2].
    split; [assumption|]. rewrite H2. simpl. now apply lookup_insert_ne.
Qed.

Lemma assign_key_proto_own (o : plain_object) (v : value) :
  inherits o = true -> own (assign_key o "__proto__" v) = own o.
Proof. intros Hinh. unfold assign_key. rewrite Hinh. simpl. now destruct v. Qed.

Lemma assign_entries_distinct (l : list ApiAnswer.t) (o : plain_object) :
  NoDup (ApiAnswer.client_id <$> l) ->
  inherits o = true \/
    (forall e, e ∈ l -> ApiAnswer.client_id e <> "__proto__") ->
  (forall e, e ∈ l -> own o !! ApiAnswer.client_id e = None) ->
  size (own (assign_entries o l)) =
    (size (own o) +
     length (filter (fun e => ApiAnswer.client_id e <> "__proto__") l))%nat /\
  own (assign_entries o l) !! "__proto__" = own o !! "__proto__".
Proof.
  revert o. induction l as [|e l IH]; intros o Hnd Hinv Hm.
  - simpl. split; [lia | reflexivity].
  - change (assign_entries o (e :: l))
      with (assign_entries
              (assign_key o (ApiAnswer.client_id e) (ApiAnswer.id e)) l).
    rewrite fmap_cons in Hnd. apply NoDup_cons in Hnd as [Hnotin Hnd].
    assert (Hother : forall e', e' ∈ l ->
                       ApiAnswer.client_id e' <> ApiAnswer.client_id e).
    { intros e' He' Heq. apply Hnotin. rewrite <- Heq.
      apply list_elem_of_fmap. now exists e'. }
    destruct (decide (ApiAnswer.client_id e = "__proto__")) as [Heq|Hne].
    + assert (Hinh : inherits o = true).
      { destruct Hinv as [H|H]; [assumption|].
        exfalso. apply (H e); [now left | assumption]. }
      rewrite filter_cons_False by (intros H; now apply H).
      destruct (IH (assign_key o (ApiAnswer.client_id e) (ApiAnswer.id e)))
        as [Hsize Hproto].
      * assumption.
      * right. intros e' He'. rewrite <- Heq. now apply Hother.
      * intros e' He'. rewrite Heq, assign_key_proto_own by assumption.
        apply Hm. now right.
      * rewrite Hsize, Hproto, Heq, assign_key_proto_own by assumption.
        now split.
    + rewrite filter_cons_True by assumption.
      rewrite assign_key_plain by assumption.
      destruct (IH (mkPlain (<[ApiAnswer.client_id e := ApiAnswer.id e]> (own o))
                      (inherits o))) as [Hsize Hproto].
      * assumption.
      * destruct Hinv as [H|H]; [now left|].
        right. intros e' He'. apply H. now right.
      * intros e' He'. simpl. rewrite lookup_insert_ne.
        -- apply Hm. now right.
        -- intros Hk. now apply (Hother e' He').
      * rewrite Hsize, Hproto. simpl. split.
        -- rewrite map_size_insert_None; [lia|]. apply Hm. now left.
        -- now apply lookup_insert_ne.
Qed.

(** X9. The correlation map holds nothing but the snapshot: the id
    under a key is the id of some snapshot entry with that [client_id].
    Every [client_id] of the snapshot other than ["__proto__"] is a key.
    ["__proto__"] is not: as long as no entry assigns [null] to it, the
    assignment stores nothing. *)
Theorem answerIdMap_holds_the_snapshot (d : PollData.t) :
  (forall c n, answerIdMap (Some d) !! c = Some n ->
     exists e, e ∈ PollData.answers d /\
               ApiAnswer.client_id e = c /\ ApiAnswer.id e = n) /\
  (forall c, c <> "__proto__" ->
     (is_Some (answerIdMap (Some d) !! c) <->
      exists e, e ∈ PollData.answers d /\ ApiAnswer.client_id e = c)) /\
  ((forall e, e ∈ PollData.answers d ->
      ApiAnswer.client_id e = "__proto__" -> ApiAnswer.id e <> VNull) ->
   answerIdMap (Some d) !! "__proto__" = None).
Proof.
  unfold answerIdMap. split; [|split].
  - intros c n Hn. apply assign_entries_sound in Hn as [Hn|H]; [|assumption].
    simpl in Hn. rewrite lookup_empty in Hn. discriminate.
  - intros c Hc. split.
    + intros [n Hn].
      apply assign_entries_sound in Hn as [Hn|(e & He & Hce & _)].
      * simpl in Hn. rewrite lookup_empty in Hn. discriminate.
      * now exists e.
    + intros H. apply assign_entries_present; [assumption | now right].
  - intros Hids.
    destruct (assign_entries_proto_ignored (PollData.answers d) empty_object
                eq_refl Hids) as [_ H].
    rewrite H. apply lookup_empty.
Qed.

(** X10. If no [client_id] comes twice in the snapshot, every entry
    whose [client_id] is not ["__proto__"] is found under its [client_id]
    with its own id, ["__proto__"] is no key, and the map has as many keys
    as the snapshot has entries with another [client_id]. *)
Theorem answerIdMap_of_distinct_client_ids (d : PollData.t) :
  NoDup (ApiAnswer.client_id <$> PollData.answers d) ->
  (forall e, e ∈ PollData.answers d ->
     ApiAnswer.client_id e <> "__proto__" ->
     answerIdMap (Some d) !! ApiAnswer.client_id e = Some (ApiAnswer.id e)) /\
  answerIdMap (Some d) !! "__proto__" = None /\
  size (answerIdMap (Some d)) =
    length (filter (fun e => ApiAnswer.client_id e <> "__proto__")
              (PollData.answers d)).
Proof.
  intros Hnd. split.
  - intros e He Hc. now apply answerIdMap_found.
  - unfold answerIdMap.
    destruct (assign_entries_distinct (PollData.answers d) empty_object Hnd)
      as [Hsize Hproto].
    + now left.
    + intros e _. apply lookup_empty.
    + split; [now rewrite Hproto|]. rewrite Hsize. simpl.
      now rewrite map_size_empty.
Qed.

(** ** The data layer *)

(** X11. Without a poll id the data layer is not asked, so whatever the
    store holds the block reads no results URL, no numeric poll id and an
    empty correlation map; after a pass there is a poll id, and the store
    is asked with it. *)
Theorem data_layer_is_asked_by_pollId (entropy : nat -> Z)
    (getPollDataByClientId : value -> option PollData.t) (w : world) :
  (truthy (pollId (store w)) = false ->
   select_pollDataFromApi getPollDataByClientId (store w) = None /\
   viewResultsUrl (select_pollDataFromApi getPollDataByClientId (store w))
     = VStr "" /\
   pollIdFromApi (select_pollDataFromApi getPollDataByClientId (store w))
     = VNull /\
   answerIdMap (select_pollDataFromApi getPollDataByClientId (store w)) = ∅) /\
  select_pollDataFromApi getPollDataByClientId (store (pass entropy w))
    = getPollDataByClientId (pollId (store (pass entropy w))).
Proof.
  unfold select_pollDataFromApi. split.
  - intros ->. now repeat split.
  - now rewrite pass_pollId_truthy.
Qed.

(** ** Sessions of the edit lock *)

Section Lock.

Variable pollIdExistsInPageContent : value -> string -> bool.

Lemma ui_run_snoc (events : list (attrs * Post.t * ui_event))
    (attributes : attrs) (postDetails : Post.t) (e : ui_event) :
  ui_run pollIdExistsInPageContent (events ++ [(attributes, postDetails, e)]) =
  ui_step pollIdExistsInPageContent attributes postDetails
    (ui_run pollIdExistsInPageContent events) e.
Proof. unfold ui_run. now rewrite foldl_app. Qed.

(** X12. The edit lock has no memory.  Right after "edit anyway" the
    poll is editable and the edit bar is gone; right after the next change
    of the selection the poll is locked again if the document is still
    published with the poll in it, and the edit bar is back on the selected
    block. *)
Theorem edit_lock_has_no_memory (events : list (attrs * Post.t * ui_event))
    (attributes : attrs) (postDetails : Post.t) (isSelected : bool) :
  let unlocked := events ++ [(attributes, postDetails, EditClicked)] in
  let reselected := unlocked ++ [(attributes, postDetails, SelectionChanged)] in
  ui_run pollIdExistsInPageContent unlocked = true /\
  showEditBar pollIdExistsInPageContent attributes postDetails isSelected
    (ui_run pollIdExistsInPageContent unlocked) = false /\
  ui_run pollIdExistsInPageContent reselected =
    negb (wasBlockAddedBeforeLastPublish pollIdExistsInPageContent
            attributes postDetails) /\
  showEditBar pollIdExistsInPageContent attributes postDetails true
    (ui_run pollIdExistsInPageContent reselected) =
    wasBlockAddedBeforeLastPublish pollIdExistsInPageContent
      attributes postDetails.
Proof.
  intros unlocked reselected. subst unlocked reselected.
  rewrite !ui_run_snoc. simpl. unfold showEditBar.
  split; [reflexivity|]. split; [apply andb_false_r|]. split; [reflexivity|].
  rewrite negb_involutive. simpl. apply andb_diag.
Qed.

(** X13. Only the status ['publish'] locks.  As long as every render of
    a session sees a document with another status, the poll is editable
    after every event and the edit bar never shows. *)
Theorem unpublished_documents_never_lock
    (events : list (attrs * Post.t * ui_event)) :
  Forall (fun '(_, postDetails, _) =>
            Post.status postDetails <> VStr "publish") events ->
  ui_run pollIdExistsInPageContent events = true /\
  Forall (fun '(attributes, postDetails, _) =>
            forall isSelected isPollEditable,
              showEditBar pollIdExistsInPageContent attributes postDetails
                isSelected isPollEditable = false) events.
Proof.
  intros Hall.
  assert (Hwas : forall attributes postDetails,
             Post.status postDetails <> VStr "publish" ->
             wasBlockAddedBeforeLastPublish pollIdExistsInPageContent
               attributes postDetails = false).
  { intros a p Hp. unfold wasBlockAddedBeforeLastPublish.
    replace (strict_eq (VStr "publish") (Post.status p)) with false;
      [reflexivity|].
    symmetry. apply strict_eq_false. congruence. }
  split.
  - induction events as [|[[a p] e] events IH] using rev_ind; [reflexivity|].
    apply Forall_app in Hall as [Hall Hlast].
    apply Forall_inv in Hlast.
    rewrite ui_run_snoc. destruct e; simpl; try reflexivity;
      now rewrite Hwas.
  - eapply Forall_impl; [exact Hall|].
    intros [[a p] e] Hp sel ed. unfold showEditBar.
    rewrite Hwas by assumption. now rewrite andb_false_r.
Qed.

End Lock.

(** ** The returned tree *)

Lemma isHidden_showResults_exclusive_aux (isPollClosed : value -> value -> bool)
    (ClosedPollState : ClosedPollStateT) (attributes : attrs) :
  SHOW_RESULTS ClosedPollState <> HIDDEN ClosedPollState ->
  strict_eq (VStr (SHOW_RESULTS ClosedPollState)) (closedPollState attributes) &&
  strict_eq (VStr (HIDDEN ClosedPollState)) (closedPollState attributes) = false.
Proof.
  intros Hne.
  destruct (strict_eq (VStr (SHOW_RESULTS ClosedPollState))
              (closedPollState attributes)) eqn:Hs; [simpl|reflexivity].
  apply strict_eq_true in Hs. apply strict_eq_false. rewrite <- Hs. congruence.
Qed.

Section Tree.

Variable isPollClosed : value -> value -> bool.
Variable pollIdExistsInPageContent : value -> string -> bool.
Variable ClosedPollState : ClosedPollStateT.
Variable decodeEntities : value -> value.
Variable isAnswerEmpty : gmap string value -> bool.
Variable addApiAnswerIds :
  list (gmap string value) -> gmap string value ->
  list (gmap string value * option value).

(** X14. The answers editor and the results view are never rendered
    together and one of them always is; the results view and the hidden
    class come only with the closed banner; with the two closed-state
    behaviours distinct, the results view is never on a hidden poll, which
    shows the answers editor instead. *)
Theorem tree_is_consistent (attributes : attrs) (isSelected : bool)
    (pollDataFromApi : option PollData.t) (postDetails : Post.t)
    (isPollEditable : bool) (errorMessage : value) :
  SHOW_RESULTS ClosedPollState <> HIDDEN ClosedPollState ->
  let v := PollBlock isPollClosed pollIdExistsInPageContent ClosedPollState
             decodeEntities isAnswerEmpty addApiAnswerIds attributes
             isSelected pollDataFromApi postDetails isPollEditable
             errorMessage in
  (is_Some (editAnswers_disabled v) <-> pollResults v = None) /\
  (is_Some (pollResults v) ->
   class_is_closed v = true /\ closedBanner v = Some (false, true) /\
   class_is_hidden v = false) /\
  (class_is_hidden v = true ->
   class_is_closed v = true /\ closedBanner v = Some (true, true) /\
   is_Some (editAnswers_disabled v)) /\
  (closedBanner v = None <-> class_is_closed v = false).
Proof.
  intros Hne v. subst v. simpl.
  pose proof (isHidden_showResults_exclusive_aux isPollClosed ClosedPollState
                attributes Hne) as Hex.
  unfold showResults, isHidden in *.
  destruct (isClosed isPollClosed attributes); simpl in *.
  - destruct (strict_eq (VStr (SHOW_RESULTS ClosedPollState))
                (closedPollState attributes)),
             (strict_eq (VStr (HIDDEN ClosedPollState))
                (closedPollState attributes));
      simpl in *; try discriminate;
      repeat split; intros; try discriminate; eauto;
      try (match goal with H : is_Some None |- _ => destruct H; discriminate end).
  - repeat split; intros; try discriminate; eauto;
      try (match goal with H : is_Some None |- _ => destruct H; discriminate end).
Qed.

(** X15. Editable fields are rendered only while the poll is editable:
    the question is a rich-text field exactly then, and it carries the
    stored question as it is; a rich-text note needs it too; the answers
    editor, when rendered, is disabled exactly when the poll is not
    editable; and the edit bar shows only on a selected, non-editable
    block.  A read-only question is decoded, or is the placeholder when
    empty. *)
Theorem editable_fields_need_isPollEditable (attributes : attrs)
    (isSelected : bool) (pollDataFromApi : option PollData.t)
    (postDetails : Post.t) (isPollEditable : bool) (errorMessage : value) :
  let v := PollBlock isPollClosed pollIdExistsInPageContent ClosedPollState
             decodeEntities isAnswerEmpty addApiAnswerIds attributes
             isSelected pollDataFromApi postDetails isPollEditable
             errorMessage in
  (forall x, question_region v = QuestionRichText x <->
             isPollEditable = true /\ x = question attributes) /\
  (forall x, note_region v = NoteRichText x ->
             isPollEditable = true /\ x = note attributes) /\
  (forall b, editAnswers_disabled v = Some b -> b = negb isPollEditable) /\
  (editBar v = true -> isSelected = true /\ isPollEditable = false) /\
  (isPollEditable = false ->
   question_region v =
     QuestionHeading (if truthy (question attributes)
                      then decodeEntities (question attributes)
                      else VStr "Enter your question")).
Proof.
  intros v. subst v. simpl. unfold render_note, showEditBar.
  split; [|split; [|split; [|split]]].
  - intros x. destruct isPollEditable; split.
    + intros H. injection H as <-. now split.
    + intros [_ ->]. reflexivity.
    + discriminate.
    + intros [H _]. discriminate.
  - intros x.
    destruct (truthy (showNote attributes isSelected isPollEditable)),
             isPollEditable; try discriminate.
    intros H. injection H as <-. now split.
  - intros b. destruct (negb (showResults isPollClosed ClosedPollState attributes));
      [|discriminate].
    intros H. now injection H as <-.
  - intros H. apply andb_true_iff in H as [H H3].
    apply andb_true_iff in H as [H1 _].
    split; [assumption | now apply negb_true_iff].
  - now intros ->.
Qed.

End Tree.

(** ** The defaults of the schema *)

(** X16. Every default the schema declares has the type declared for
    its field or is null, given that the two defaults taken from
    [ConfirmMessageType] and [FontFamilyType] are strings or null; the
    three default answers and the defaults of an answer's properties
    conform too. *)
Theorem declared_defaults_conform (translate : string -> string)
    (ConfirmMessageType_RESULTS FontFamilyType_THEME_DEFAULT : value)
    (PollStatus : PollStatusT) (ClosedPollState : ClosedPollStateT) :
  conforms (Some TString) ConfirmMessageType_RESULTS = true ->
  conforms (Some TString) FontFamilyType_THEME_DEFAULT = true ->
  (forall field d,
     schema_default translate ConfirmMessageType_RESULTS
       FontFamilyType_THEME_DEFAULT PollStatus ClosedPollState field = Some d ->
     default_conforms field d = true) /\
  (forall prop v,
     answer_schema_default prop = Some v ->
     conforms (answer_schema_type prop) v = true).
Proof.
  intros Hc Hf. split.
  - intros field d H. unfold schema_default in H.
    repeat match type of H with
           | context [String.eqb field ?s] =>
               destruct (String.eqb_spec field s) as [->|_];
               [injection H as <-; first [reflexivity | exact Hc | exact Hf]|]
           end.
    discriminate.
  - intros prop v H. unfold answer_schema_default in H.
    repeat match type of H with
           | context [String.eqb prop ?s] =>
               destruct (String.eqb_spec prop s) as [->|_];
               [injection H as <-; reflexivity|]
           end.
    discriminate.
Qed.

(** * Further instances on the sample inputs *)

Lemma pollId_never_reassigned_witness :
  truthy (pollId (store Sample2.w_settled)) = true /\
  pollId (store (Nat.iter 3 (pass Sample.entropy) Sample2.w_settled))
    = VStr "abc".
Proof.
  split; [reflexivity|].
  apply (pollId_never_reassigned Sample.entropy 3 Sample2.w_settled eq_refl).
Defined.

Lemma each_answer_has_its_own_draw_witness :
  Sample2.two_gaps.(answers) !! 2%nat = Some Sample2.maybe /\
  needs_id Sample2.maybe = true /\
  answers (store (pass Sample.entropy Sample2.w_two_gaps)) !! 2%nat =
    Some (<["answerId" := VStr (uuid_at Sample.entropy 48)]> Sample2.maybe).
Proof.
  split; [reflexivity|]. split; [reflexivity|].
  apply (each_answer_has_its_own_draw Sample.entropy Sample2.w_two_gaps 2
           Sample2.maybe eq_refl eq_refl).
Defined.

Lemma every_write_breaks_schema_witness :
  PatchPollId (VStr (uuid_at Sample.entropy 0))
    ∈ pass_writes Sample.entropy Sample.w_fresh /\
  patch_conforms (PatchPollId (VStr (uuid_at Sample.entropy 0))) = false.
Proof.
  assert (Hin : PatchPollId (VStr (uuid_at Sample.entropy 0))
                  ∈ pass_writes Sample.entropy Sample.w_fresh)
    by apply list_elem_of_here.
  split; [exact Hin|].
  apply (every_write_breaks_schema Sample.entropy Sample.w_fresh _ Hin).
Defined.

Lemma answerIdMap_of_distinct_client_ids_witness :
  NoDup (ApiAnswer.client_id <$> PollData.answers Sample2.snapshot_distinct) /\
  answerIdMap (Some Sample2.snapshot_distinct) !! "b" = Some (VNum 9) /\
  answerIdMap (Some Sample2.snapshot_distinct) !! "__proto__" = None /\
  size (answerIdMap (Some Sample2.snapshot_distinct)) = 2%nat.
Proof.
  assert (Hnd : NoDup (ApiAnswer.client_id <$>
                         PollData.answers Sample2.snapshot_distinct)).
  { apply (bool_decide_unpack _). vm_compute. exact I. }
  split; [exact Hnd|].
  destruct (answerIdMap_of_distinct_client_ids Sample2.snapshot_distinct Hnd)
    as (Hall & Hproto & Hsize).
  split; [|split; [exact Hproto | exact Hsize]].
  apply (Hall (ApiAnswer.mk "b" (VNum 9))).
  - do 2 apply list_elem_of_further. apply list_elem_of_here.
  - discriminate.
Defined.

Lemma unpublished_documents_never_lock_witness :
  Forall (fun '(_, postDetails, _) =>
            Post.status postDetails <> VStr "publish") Sample2.draft_session /\
  ui_run pollIdExistsInPageContent_spec Sample2.draft_session = true.
Proof.
  assert (Hall : Forall (fun '(_, postDetails, _) =>
                           Post.status postDetails <> VStr "publish")
                   Sample2.draft_session).
  { repeat constructor; discriminate. }
  split; [exact Hall|].
  apply (unpublished_documents_never_lock pollIdExistsInPageContent_spec
           Sample2.draft_session Hall).
Defined.

Lemma tree_is_consistent_witness :
  SHOW_RESULTS Sample.ClosedPollState <> HIDDEN Sample.ClosedPollState /\
  class_is_hidden
    (PollBlock Sample2.always_closed pollIdExistsInPageContent_spec
       Sample.ClosedPollState Sample2.no_decoding Sample.never_empty
       addApiAnswerIds_spec Sample.hidden_block true
       (Some Sample.snapshot) Sample.post_publish false (VStr "")) = true /\
  is_Some (editAnswers_disabled
    (PollBlock Sample2.always_closed pollIdExistsInPageContent_spec
       Sample.ClosedPollState Sample2.no_decoding Sample.never_empty
       addApiAnswerIds_spec Sample.hidden_block true
       (Some Sample.snapshot) Sample.post_publish false (VStr ""))).
Proof.
  assert (Hne : SHOW_RESULTS Sample.ClosedPollState
                <> HIDDEN Sample.ClosedPollState) by discriminate.
  split; [exact Hne|]. split; [reflexivity|].
  apply (tree_is_consistent Sample2.always_closed pollIdExistsInPageContent_spec
           Sample.ClosedPollState Sample2.no_decoding Sample.never_empty
           addApiAnswerIds_spec Sample.hidden_block true
           (Some Sample.snapshot) Sample.post_publish false (VStr "") Hne).
  reflexivity.
Defined.

Lemma declared_defaults_conform_witness :
  conforms (Some TString) (VStr "results") = true /\
  conforms (Some TString) VNull = true /\
  default_conforms "answers" (DefaultAnswers [∅; ∅; ∅]) = true.
Proof.
  split; [reflexivity|]. split; [reflexivity|].
  apply (proj1 (declared_defaults_conform (fun s => s) (VStr "results") VNull
                  Sample.PollStatus Sample.ClosedPollState eq_refl eq_refl)
           "answers").
  reflexivity.
Defined.
